(** * simplex_grid: integer points of a simplex in lexicographic order

    A shallow embedding of [simplex_grid.py] and [simplex_grid_gen.py]
    (D. Oyama) and the verification of their enumeration, ranking and
    counting functions.

    Conventions of the embedding.
    - Python integers are [Z].  The entries of a numpy array of dtype int
      are 64-bit: they are [Z] values kept inside the 64-bit range, a
      Python integer stored into such an array is checked against that
      range ([np_set], OverflowError), and arithmetic on a value read
      from such an array wraps ([wrap64]).
    - A Python call that may raise returns a [result]; the exceptions
      that occur in the two source files are listed in [exn].
    - numpy 1-d arrays are [list Z] read and written through [np_get]
      and [np_set], which follow numpy's index rule (negative indices
      count from the end, anything else out of range raises IndexError).
    - [simplex_grid] carries numba's [@jit]; it calls [num_compositions],
      which numba cannot compile, so the straight-line code runs as
      Python and the loops are compiled on their own.  Compiled loops
      index arrays without a bounds check ([nb_get], [nb_set],
      [nb_set2]).
    - The generator of [simplex_grid_gen.py] yields its working array
      itself; arrays therefore live in a [store] and a yielded value is
      a location in it. *)

From stdpp Require Import base numbers list.
From Stdlib Require Import ZArith Lia.

Open Scope Z_scope.

(** ** Exceptions and results *)

(** The Python exceptions of the two files, and [UncheckedAccess], which
    is no exception: it ends a run of the model where a compiled loop
    reads outside an array, or addresses outside an axis, and what the
    program then does is not determined by its text. *)
Inductive exn : Type :=
| IndexError
| ValueError
| OverflowError
| StopIteration
| UncheckedAccess.

Inductive result (A : Type) : Type :=
| Ok (a : A)
| Raise (e : exn).

Arguments Ok {A} a.
Arguments Raise {A} e.

Definition bind {A B : Type} (c : result A) (k : A -> result B) : result B :=
  match c with
  | Ok a => k a
  | Raise e => Raise e
  end.

Notation "'do' x <- c ; k" := (bind c (fun x => k))
  (at level 10, x pattern, c at level 100, k at level 200).

(** ** 64-bit integers *)

(** The range of numpy's int64. *)
Definition fits64 (z : Z) : bool := (- 2 ^ 63 <=? z) && (z <? 2 ^ 63).

(** The result of 64-bit two's complement arithmetic. *)
Definition wrap64 (z : Z) : Z := (z + 2 ^ 63) mod 2 ^ 64 - 2 ^ 63.

(** A number at run time: a Python integer, exact, or a numpy int64
    scalar. *)
Inductive num : Type :=
| PyInt (z : Z)
| NpInt (z : Z).

Definition num_val (a : num) : Z :=
  match a with
  | PyInt z => z
  | NpInt z => z
  end.

(** [a - b]: exact on two Python integers; 64-bit when an int64 scalar
    takes part and the Python integer, if there is one, fits 64 bits; a
    Python integer beyond 64 bits makes numpy fall back to exact Python
    arithmetic. *)
Definition num_sub (a b : num) : num :=
  match a, b with
  | PyInt x, PyInt y => PyInt (x - y)
  | PyInt x, NpInt y =>
      if fits64 x then NpInt (wrap64 (x - y)) else PyInt (x - y)
  | NpInt x, PyInt y =>
      if fits64 y then NpInt (wrap64 (x - y)) else PyInt (x - y)
  | NpInt x, NpInt y => NpInt (wrap64 (x - y))
  end.

(** ** Loops *)

(** [range a b] is Python's [range(a, b)]. *)
Definition range (a b : Z) : list Z := seqZ a (b - a).

(** [for i in l: s = body i s], stopping at the first exception. *)
Fixpoint for_ {S : Type} (l : list Z) (body : Z -> S -> result S) (s : S)
  : result S :=
  match l with
  | [] => Ok s
  | i :: l' => do s' <- body i s; for_ l' body s'
  end.

(** ** numpy arrays *)

(** numpy's rule for an integer index into an axis of length [len]. *)
Definition np_index (len : nat) (i : Z) : result nat :=
  if (0 <=? i) && (i <? Z.of_nat len) then Ok (Z.to_nat i)
  else if (- Z.of_nat len <=? i) && (i <? 0) then Ok (Z.to_nat (i + Z.of_nat len))
  else Raise IndexError.

(** [a[i]] *)
Definition np_get (a : list Z) (i : Z) : result Z :=
  do k <- np_index (length a) i;
  match a !! k with
  | Some v => Ok v
  | None => Raise IndexError
  end.

(** [a[i] = v] on an array of dtype int: the index is resolved first,
    then the value is converted to 64 bits, which fails for a Python
    integer outside the range. *)
Definition np_set (a : list Z) (i v : Z) : result (list Z) :=
  do k <- np_index (length a) i;
  if fits64 v then Ok (<[k := v]> a) else Raise OverflowError.

(** [np.zeros(m, dtype=int)] *)
Definition np_zeros (m : Z) : result (list Z) :=
  if m <? 0 then Raise ValueError else Ok (replicate (Z.to_nat m) 0).

(** [np.empty((L, m), dtype=int)]: the cells are not initialised; [uninit]
    gives whatever the memory holds. *)
Definition np_empty (uninit : nat -> nat -> Z) (L m : Z)
  : result (list (list Z)) :=
  if (L <? 0) || (m <? 0) then Raise ValueError
  else Ok (map (fun i => map (uninit i) (seq 0 (Z.to_nat m)))
               (seq 0 (Z.to_nat L))).

(** [np.cumsum(a)] on an int64 array: the running sum is 64-bit. *)
Fixpoint cumsum_from (acc : Z) (a : list Z) : list Z :=
  match a with
  | [] => []
  | v :: a' => wrap64 (acc + v) :: cumsum_from (wrap64 (acc + v)) a'
  end.

Definition np_cumsum (a : list Z) : list Z := cumsum_from 0 a.

(** ** Arrays in loops compiled by numba *)

(** An index into an axis of length [len]: negative indices count from
    the end; nothing is checked, and [None] is an index outside. *)
Definition nb_index (len : nat) (i : Z) : option nat :=
  if (0 <=? i) && (i <? Z.of_nat len) then Some (Z.to_nat i)
  else if (- Z.of_nat len <=? i) && (i <? 0) then Some (Z.to_nat (i + Z.of_nat len))
  else None.

(** [a[i]]: outside the array the value read is whatever lies there. *)
Definition nb_get (a : list Z) (i : Z) : result Z :=
  match nb_index (length a) i with
  | Some k =>
      match a !! k with
      | Some v => Ok v
      | None => Raise UncheckedAccess
      end
  | None => Raise UncheckedAccess
  end.

(** [a[i] = v]: a write outside the array lands in other memory and
    leaves the array as it is. *)
Definition nb_set (a : list Z) (i v : Z) : list Z :=
  match nb_index (length a) i with
  | Some k => <[k := v]> a
  | None => a
  end.

(** [out[i, j] = v] on a table of rows of width [m]: with [j] inside its
    axis, a row index outside the table addresses memory outside the
    table, which stays as it is; with [j] outside its axis the cell
    addressed is not determined here. *)
Definition nb_set2 (m : Z) (out : list (list Z)) (i j v : Z)
  : result (list (list Z)) :=
  match nb_index (Z.to_nat m) j with
  | None => Raise UncheckedAccess
  | Some c =>
      match nb_index (length out) i with
      | None => Ok out
      | Some r =>
          match out !! r with
          | Some row => Ok (<[r := <[c := v]> row]> out)
          | None => Ok out
          end
      end
  end.

(** ** Counter *)

(** [scipy.misc.comb(N, k, exact=True)].  scipy is not part of the
    repository; this is the [exact] branch of [comb] in
    scipy/special/basic.py at v0.15.0, the revision [num_compositions]
    points to:
<<
        if (k > N) or (N < 0) or (k < 0):
            return 0
        val = 1
        for j in xrange(min(k, N-k)):
            val = (val*(N-j))//(j+1)
        return val
>> *)
Definition comb (N k : Z) : Z :=
  if (k >? N) || (N <? 0) || (k <? 0) then 0
  else fold_left (fun val j => (val * (N - j)) / (j + 1))
                 (range 0 (Z.min k (N - k))) 1.

Definition num_compositions (m n : Z) : result Z :=
  Ok (comb (n + m - 1) (m - 1)).

(** The same [comb] run on an int64 scalar [N] and a Python integer [k]:
    [N-k], [N-j] and the product are 64-bit, and [val] is an int64 scalar
    from the first product on. *)
Definition comb64 (N k : Z) : num :=
  if (k >? N) || (N <? 0) || (k <? 0) then PyInt 0
  else fold_left
         (fun val j => NpInt (wrap64 (num_val val * wrap64 (N - j)) / (j + 1)))
         (range 0 (Z.min k (wrap64 (N - k)))) (PyInt 1).

(** [num_compositions(m, n)] called with an int64 scalar [n] and a Python
    integer [m] that fits 64 bits (as every [m] does for which the loop
    of [simplex_index] gets that far): [n+m-1] is 64-bit. *)
Definition num_compositions64 (m n : Z) : result num :=
  Ok (comb64 (wrap64 (wrap64 (n + m) - 1)) (m - 1)).

(** The value [num_compositions] returns, as a plain integer. *)
Definition ncomp (m n : Z) : Z := comb (n + m - 1) (m - 1).

(** Binomial coefficients by Pascal's rule, the reference the counter is
    compared with. *)
Fixpoint binom (n k : nat) : nat :=
  match n, k with
  | _, O => 1
  | O, S _ => 0
  | S n', S k' => binom n' k' + binom n' k
  end%nat.

(** ** Enumerator, batch mode ([simplex_grid.py]) *)

(** [for j in range(m): out[i, j] = x[j]], a compiled loop. *)
Definition copy_row (out : list (list Z)) (i : Z) (x : list Z) (m : Z)
  : result (list (list Z)) :=
  for_ (range 0 m)
       (fun j out => do v <- nb_get x j; nb_set2 m out i j v)
       out.

(** One pass through the body of [for i in range(1, L)], a compiled
    loop; the loop state is the working vector [x], the pointer [h] and
    the table [out].  [val - 1] and [x[h-1] += 1] are 64-bit. *)
Definition grid_body (m : Z) (i : Z) (st : list Z * Z * list (list Z))
  : result (list Z * Z * list (list Z)) :=
  let '(x, h, out) := st in
  let h := h - 1 in
  do val <- nb_get x h;
  let x := nb_set x h 0 in
  let x := nb_set x (m - 1) (wrap64 (val - 1)) in
  do old <- nb_get x (h - 1);
  let x := nb_set x (h - 1) (wrap64 (old + 1)) in
  do out <- copy_row out i x m;
  let h := if val =? 1 then h else m in
  Ok (x, h, out).

(** Everything [simplex_grid] does before its main loop; the statements
    outside the loop run as Python. *)
Definition grid_init (uninit : nat -> nat -> Z) (m n : Z)
  : result (Z * (list Z * Z * list (list Z))) :=
  do L <- num_compositions m n;
  do out <- np_empty uninit L m;
  do x <- np_zeros m;
  do x <- np_set x (m - 1) n;
  do out <- copy_row out 0 x m;
  let h := m in
  Ok (L, (x, h, out)).

(** The loop state after the iterations [i = 1 .. k] of the main loop. *)
Definition grid_run (uninit : nat -> nat -> Z) (m n : Z) (k : Z)
  : result (list Z * Z * list (list Z)) :=
  do (_, st) <- grid_init uninit m n;
  for_ (range 1 (1 + k)) (grid_body m) st.

Definition simplex_grid (uninit : nat -> nat -> Z) (m n : Z)
  : result (list (list Z)) :=
  do (L, st) <- grid_init uninit m n;
  do (_, _, out) <- for_ (range 1 L) (grid_body m) st;
  Ok out.

(** ** Ranker ([simplex_grid.py]) *)

(** The loop of [simplex_index]; leaving it by [break] and running it to
    its end both fall through to [return idx].  [decumsum[i]] is an int64
    scalar, so [decumsum[i]-1] is 64-bit and [num_compositions] is run on
    an int64 scalar; [idx] starts as a Python integer. *)
Fixpoint index_loop (decumsum : list Z) (m : Z) (l : list Z) (idx : num)
  : result num :=
  match l with
  | [] => Ok idx
  | i :: l' =>
      do d <- np_get decumsum i;
      if d =? 0 then Ok idx
      else
        do c <- num_compositions64 (m - i) (wrap64 (d - 1));
        index_loop decumsum m l' (num_sub idx c)
  end.

(** [x] holds 64-bit integers: an int array, such as a row of
    [simplex_grid], or a sequence that [np.cumsum] converts to one.
    [x[-1:0:-1]] is [rev (tail x)]. *)
Definition simplex_index (x : list Z) (m n : Z) : result Z :=
  if m =? 1 then Ok 0
  else
    let decumsum := rev (np_cumsum (rev (tail x))) in
    do L <- num_compositions m n;
    do idx <- index_loop decumsum m (range 0 (m - 1)) (PyInt (L - 1));
    Ok (num_val idx).

(** The recursion consumes one element of [x] per call ([x[0]] raises on
    an empty sequence), so it is structural in [x]. *)
Fixpoint simplex_index_rec (x : list Z) (m n : Z) : result Z :=
  if m =? 1 then Ok 0
  else
    match x with
    | [] => Raise IndexError
    | x0 :: tl =>
        do (n_next, idx0) <-
           (if x0 =? 0 then Ok (n, 0)
            else
              let n_next := n - x0 in
              do a <- num_compositions m n;
              do b <- num_compositions m n_next;
              Ok (n_next, a - b));
        do r <- simplex_index_rec tl (m - 1) n_next;
        Ok (idx0 + r)
    end.

(** ** Enumerator, lazy mode, and the facade ([simplex_grid_gen.py]) *)

(** The arrays that exist, by location. *)
Abbreviation store := (list (list Z)).

(** Computations that read and write the store and may raise. *)
Definition M (A : Type) : Type := store -> result A * store.

Definition mret {A : Type} (a : A) : M A := fun s => (Ok a, s).

Definition mbind {A B : Type} (c : M A) (k : A -> M B) : M B :=
  fun s =>
    match c s with
    | (Ok a, s') => k a s'
    | (Raise e, s') => (Raise e, s')
    end.

Notation "'run' x <- c ; k" := (mbind c (fun x => k))
  (at level 10, x pattern, c at level 100, k at level 200).

(** [np.zeros(m, dtype=int)] as an allocation. *)
Definition zeros (m : Z) : M nat :=
  fun s =>
    match np_zeros m with
    | Ok a => (Ok (length s), s ++ [a])
    | Raise e => (Raise e, s)
    end.

(** [x[i]] with [x] a reference. *)
Definition arr_get (x : nat) (i : Z) : M Z :=
  fun s =>
    match s !! x with
    | Some a => (np_get a i, s)
    | None => (Raise IndexError, s)
    end.

(** [x[i] = v] with [x] a reference: the array is changed in place, or
    the store of [v] fails as in [np_set]. *)
Definition arr_set (x : nat) (i v : Z) : M unit :=
  fun s =>
    match s !! x with
    | Some a =>
        match np_set a i v with
        | Ok a' => (Ok tt, <[x := a']> s)
        | Raise e => (Raise e, s)
        end
    | None => (Raise IndexError, s)
    end.

Record SimplexGrid : Type := {
  sg_m : Z;
  sg_n : Z;
  sg_size : Z
}.

(** [SimplexGrid.__init__] *)
Definition SimplexGrid_init (m n : Z) : result SimplexGrid :=
  do size <- num_compositions m n;
  Ok {| sg_m := m; sg_n := n; sg_size := size |}.

(** Where a generator object stands: not started, suspended at
    [yield x] with its live locals, or finished. *)
Inductive gen_pc : Type :=
| GenNew
| GenSuspended (m : Z) (x : nat) (h : Z)
| GenDone.

Record generator : Type := {
  gen_self : SimplexGrid;
  gen_pc_of : gen_pc
}.

(** [self.generate()]: creating the generator runs none of its body. *)
Definition generate (self : SimplexGrid) : generator :=
  {| gen_self := self; gen_pc_of := GenNew |}.

(** The code from the entry of [generate] to the first [yield x]. The
    outcome [Some (m, x, h)] is a [yield x], [None] is [return]. *)
Definition gen_start (self : SimplexGrid) : M (option (Z * nat * Z)) :=
  let m := sg_m self in
  let n := sg_n self in
  run x <- zeros m;
  run _ <- arr_set x (m - 1) n;
  let h := m in
  mret (Some (m, x, h)).

(** The code from one [yield x] to the next; [val] and the old
    [x[h-1]] are int64 scalars, so [val - 1] and [x[h-1] += 1] are
    64-bit. *)
Definition gen_resume (m : Z) (x : nat) (h : Z) : M (option (Z * nat * Z)) :=
  let h := h - 1 in
  if h =? 0 then mret None
  else
    run val <- arr_get x h;
    run _ <- arr_set x h 0;
    run _ <- arr_set x (m - 1) (wrap64 (val - 1));
    run old <- arr_get x (h - 1);
    run _ <- arr_set x (h - 1) (wrap64 (old + 1));
    let h := if val =? 1 then h else m in
    mret (Some (m, x, h)).

(** [gen.next()]: the yielded reference or the exception, the generator
    afterwards, and the store afterwards. *)
Definition gen_next (g : generator) (s : store)
  : result nat * generator * store :=
  let finish (c : M (option (Z * nat * Z))) :=
    match c s with
    | (Ok (Some (m, x, h)), s') =>
        (Ok x, {| gen_self := gen_self g; gen_pc_of := GenSuspended m x h |}, s')
    | (Ok None, s') =>
        (Raise StopIteration, {| gen_self := gen_self g; gen_pc_of := GenDone |}, s')
    | (Raise e, s') =>
        (Raise e, {| gen_self := gen_self g; gen_pc_of := GenDone |}, s')
    end in
  match gen_pc_of g with
  | GenNew => finish (gen_start (gen_self g))
  | GenSuspended m x h => finish (gen_resume m x h)
  | GenDone => (Raise StopIteration, g, s)
  end.

(** [for i in l: _ = gen.next()] *)
Fixpoint gen_skip (l : list Z) (g : generator) (s : store)
  : result unit * generator * store :=
  match l with
  | [] => (Ok tt, g, s)
  | _ :: l' =>
      match gen_next g s with
      | (Ok _, g', s') => gen_skip l' g' s'
      | (Raise e, g', s') => (Raise e, g', s')
      end
  end.

(** [SimplexGrid.__getitem__]: the result, the facade afterwards and the
    store afterwards. *)
Definition getitem (self : SimplexGrid) (idx : Z) (s : store)
  : result nat * SimplexGrid * store :=
  if negb ((0 <=? idx) && (idx <? sg_size self)) then (Raise IndexError, self, s)
  else
    let gen := generate self in
    match gen_skip (range 0 idx) gen s with
    | (Ok _, gen, s') =>
        let '(r, _, s'') := gen_next gen s' in (r, self, s'')
    | (Raise e, _, s') => (Raise e, self, s')
    end.

(** [SimplexGrid.get_index] *)
Definition get_index (self : SimplexGrid) (x : list Z) : result Z :=
  simplex_index x (sg_m self) (sg_n self).

(** A consumer that calls [gen.next()] [k] times on a fresh generator and
    keeps every reference it is handed, together with a copy of the
    array taken at the moment of the yield. *)
Fixpoint gen_collect (k : nat) (g : generator) (s : store)
  : list (nat * list Z) * result unit * generator * store :=
  match k with
  | O => ([], Ok tt, g, s)
  | S k' =>
      match gen_next g s with
      | (Ok x, g', s') =>
          let '(ys, r, g'', s'') := gen_collect k' g' s' in
          ((x, default [] (s' !! x)) :: ys, r, g'', s'')
      | (Raise e, g', s') => ([], Raise e, g', s')
      end
  end.

(** ** Vocabulary of the properties *)

Definition zsum (l : list Z) : Z := foldr Z.add 0 l.

(** [x] is an [m]-part composition of [n]. *)
Definition is_composition (m n : Z) (x : list Z) : Prop :=
  Z.of_nat (length x) = m /\ Forall (fun v => 0 <= v) x /\ zsum x = n.

(** Lexicographic comparison, coordinates left to right. *)
Fixpoint lex_ltb (x y : list Z) : bool :=
  match x, y with
  | [], [] => false
  | [], _ :: _ => true
  | _ :: _, [] => false
  | a :: x', b :: y' => (a <? b) || ((a =? b) && lex_ltb x' y')
  end.

Definition lex_lt (x y : list Z) : Prop := lex_ltb x y = true.

(** ** Pure counterparts used in the proofs *)

(** What [simplex_index_rec] returns on a vector of the right length. *)
Fixpoint rank (x : list Z) (n : Z) : Z :=
  match x with
  | [] => 0
  | x0 :: tl =>
      match tl with
      | [] => 0
      | _ :: _ =>
          let m := Z.of_nat (length x) in
          ncomp m n - ncomp m (n - x0) + rank tl (n - x0)
      end
  end.

(** [np.cumsum] without the 64-bit wrap. *)
Fixpoint zcumsum_from (acc : Z) (a : list Z) : list Z :=
  match a with
  | [] => []
  | v :: a' => (acc + v) :: zcumsum_from (acc + v) a'
  end.

(** The content of [decumsum] for the tail [l] of a vector. *)
Fixpoint suffix_sums (l : list Z) : list Z :=
  match l with
  | [] => []
  | v :: l' => (zsum l' + v) :: suffix_sums l'
  end.

(** What the loop of [simplex_index] leaves in [idx]. *)
Fixpoint drop_count (ss : list Z) (m idx : Z) : Z :=
  match ss with
  | [] => idx
  | s :: ss' =>
      if s =? 0 then idx else drop_count ss' (m - 1) (idx - ncomp m (s - 1))
  end.

(** The update of [(x, h)] shared by the batch loop and the generator,
    with total list operations and exact arithmetic. *)
Definition next_state (m : Z) (s : list Z * Z) : list Z * Z :=
  let '(x, h) := s in
  let h := h - 1 in
  let val := x !!! Z.to_nat h in
  let x := <[Z.to_nat h := 0]> x in
  let x := <[Z.to_nat (m - 1) := val - 1]> x in
  let x := <[Z.to_nat (h - 1) := x !!! Z.to_nat (h - 1) + 1]> x in
  (x, if val =? 1 then h else m).

Definition first_state (m n : Z) : list Z * Z :=
  (<[Z.to_nat (m - 1) := n]> (replicate (Z.to_nat m) 0), m).

Definition state_at (m n : Z) (k : nat) : list Z * Z :=
  Nat.iter k (next_state m) (first_state m n).

(** The [k]-th vector of the enumeration. *)
Definition point_at (m n : Z) (k : nat) : list Z := fst (state_at m n k).

(** The shape of the working vector between two steps: everything right
    of position [h - 1] is zero and position [h - 1] is not. *)
Definition scan_form (n : Z) (x : list Z) (h : Z) : Prop :=
  exists pre w k,
    x = pre ++ w :: replicate k 0 /\
    h = Z.of_nat (length pre) + 1 /\
    1 <= w /\
    Forall (fun v => 0 <= v) pre /\
    zsum x = n.

(** The generator of [self] suspended at its [i]-th [yield] ([i] counted
    from 0), its working array at location [x]. *)
Definition suspended_at (self : SimplexGrid) (x : nat) (i : nat) : generator :=
  {| gen_self := self;
     gen_pc_of :=
       GenSuspended (sg_m self) x (snd (state_at (sg_m self) (sg_n self) i)) |}.

(** * Verification *)

(** ** Binomial coefficients and the counter *)

Section Binomial.

Local Open Scope nat_scope.

Lemma binom_0_r n : binom n 0 = 1.
Proof. by destruct n. Qed.

Lemma binom_succ n k : binom (S n) (S k) = binom n k + binom n (S k).
Proof. done. Qed.

Lemma binom_gt n : forall k, n < k -> binom n k = 0.
Proof.
  induction n as [|n IH]; intros [|k] Hk; try lia; [done|].
  rewrite binom_succ, !IH by lia. done.
Qed.

Lemma binom_diag n : binom n n = 1.
Proof.
  induction n as [|n IH]; [done|].
  rewrite binom_succ, IH, binom_gt by lia. done.
Qed.

(** Absorption: [(k+1) * C(n+1, k+1) = (n+1) * C(n, k)]. *)
Lemma binom_absorb n : forall k,
  S k * binom (S n) (S k) = S n * binom n k.
Proof.
  induction n as [|n IH]; intros k.
  - destruct k as [|k]; [done|]. rewrite binom_succ, !binom_gt by lia. lia.
  - rewrite binom_succ. destruct k as [|k].
    + specialize (IH 0%nat). rewrite !binom_0_r in *. lia.
    + pose proof (IH k) as H1. pose proof (IH (S k)) as H2.
      pose proof (binom_succ n k) as Ha.
      rewrite Ha in H1. lia.
Qed.

Lemma binom_next n k :
  k <= n -> S k * binom n (S k) = (n - k) * binom n k.
Proof.
  intros Hk. pose proof (binom_absorb n k) as H.
  rewrite binom_succ in H. nia.
Qed.

Lemma binom_sym n : forall k, k <= n -> binom n (n - k) = binom n k.
Proof.
  induction n as [|n IH]; intros k Hk.
  - by replace k with 0 by lia.
  - destruct k as [|k].
    + rewrite Nat.sub_0_r, binom_diag, binom_0_r. done.
    + destruct (decide (k = n)) as [->|Hne].
      * rewrite Nat.sub_diag, binom_diag, binom_0_r. done.
      * replace (S n - S k) with (S (n - S k)) by lia.
        rewrite !binom_succ.
        rewrite (IH (S k)) by lia.
        replace (S (n - S k)) with (n - k) by lia.
        rewrite (IH k) by lia. lia.
Qed.

Lemma binom_pos n k : k <= n -> 1 <= binom n k.
Proof.
  revert k. induction n as [|n IH]; intros [|k] Hk; simpl; try lia.
  specialize (IH k). lia.
Qed.

(** The closed form [n! / (k! (n-k)!)]. *)
Lemma binom_fact n : forall k,
  k <= n -> binom n k * (fact k * fact (n - k)) = fact n.
Proof.
  induction n as [|n IH]; intros k Hk.
  - replace k with 0 by lia. done.
  - destruct k as [|k].
    + rewrite binom_0_r. simpl. lia.
    + pose proof (binom_absorb n k) as Ha.
      specialize (IH k ltac:(lia)).
      replace (S n - S k) with (n - k) by lia.
      change (fact (S k)) with (S k * fact k).
      change (fact (S n)) with (S n * fact n).
      transitivity (S k * binom (S n) (S k) * (fact k * fact (n - k))); [lia|].
      rewrite Ha, <- IH. lia.
Qed.

End Binomial.

Lemma range_nil a b : b <= a -> range a b = [].
Proof. intros H. unfold range. apply seqZ_nil. lia. Qed.

Lemma range_cons a b : a < b -> range a b = a :: range (a + 1) b.
Proof.
  intros H. unfold range. rewrite seqZ_cons by lia.
  f_equal. f_equal; lia.
Qed.

Lemma range_snoc a b : a <= b -> range a (b + 1) = range a b ++ [b].
Proof.
  intros H. unfold range.
  replace (b + 1 - a) with ((b - a) + 1) by lia.
  rewrite seqZ_app by lia. simpl. f_equal.
  change (seqZ (a + (b - a)) 1) with [a + (b - a)]. f_equal. lia.
Qed.

Lemma length_range a b : length (range a b) = Z.to_nat (b - a).
Proof. unfold range. by rewrite length_seqZ. Qed.

(** The loop of [comb] computes the binomial coefficients one by one. *)
Lemma comb_loop (N : nat) : forall r : nat,
  (r <= N)%nat ->
  fold_left (fun val j => (val * (Z.of_nat N - j)) / (j + 1))
            (range 0 (Z.of_nat r)) 1
  = Z.of_nat (binom N r).
Proof.
  induction r as [|r IH]; intros Hr.
  - rewrite binom_0_r. done.
  - replace (Z.of_nat (S r)) with (Z.of_nat r + 1) by lia.
    rewrite range_snoc by lia.
    rewrite fold_left_app, IH by lia. simpl.
    pose proof (binom_next N r ltac:(lia)) as Hn.
    symmetry. apply Z.div_unique_exact; [lia|]. nia.
Qed.

Lemma comb_binom (N k : Z) :
  0 <= k <= N -> comb N k = Z.of_nat (binom (Z.to_nat N) (Z.to_nat k)).
Proof.
  intros H. unfold comb.
  replace ((k >? N) || (N <? 0) || (k <? 0)) with false
    by (symmetry; rewrite !orb_false_iff; repeat split; lia).
  pose proof (comb_loop (Z.to_nat N) (Z.to_nat (Z.min k (N - k))) ltac:(lia)) as Hl.
  rewrite !Z2Nat.id in Hl by lia. rewrite Hl. f_equal.
  destruct (Z.min_spec k (N - k)) as [[_ ->]|[_ ->]]; [done|].
  replace (Z.to_nat (N - k)) with (Z.to_nat N - Z.to_nat k)%nat by lia.
  apply binom_sym. lia.
Qed.

Lemma comb_out_of_domain (N k : Z) : k > N \/ N < 0 \/ k < 0 -> comb N k = 0.
Proof.
  intros H. unfold comb.
  replace ((k >? N) || (N <? 0) || (k <? 0)) with true; [done|].
  symmetry. rewrite !orb_true_iff. lia.
Qed.

Lemma num_compositions_ok m n : num_compositions m n = Ok (ncomp m n).
Proof. done. Qed.

Lemma ncomp_binom m n :
  1 <= m -> 0 <= n ->
  ncomp m n = Z.of_nat (binom (Z.to_nat (n + m - 1)) (Z.to_nat (m - 1))).
Proof. intros Hm Hn. unfold ncomp. apply comb_binom. lia. Qed.

Lemma ncomp_invalid m n : m < 1 \/ n < 0 -> ncomp m n = 0.
Proof. intros H. unfold ncomp. apply comb_out_of_domain. lia. Qed.

Lemma ncomp_one n : 0 <= n -> ncomp 1 n = 1.
Proof.
  intros Hn. rewrite ncomp_binom by lia.
  change (Z.to_nat (1 - 1)) with 0%nat. by rewrite binom_0_r.
Qed.

Lemma ncomp_zero m : 1 <= m -> ncomp m 0 = 1.
Proof.
  intros Hm. rewrite ncomp_binom by lia.
  replace (Z.to_nat (0 + m - 1)) with (Z.to_nat (m - 1)) by lia.
  by rewrite binom_diag.
Qed.

Lemma ncomp_pos m n : 1 <= m -> 0 <= n -> 1 <= ncomp m n.
Proof.
  intros Hm Hn. rewrite ncomp_binom by lia.
  pose proof (binom_pos (Z.to_nat (n + m - 1)) (Z.to_nat (m - 1)) ltac:(lia)).
  lia.
Qed.

(** Pascal's rule for the counter: an [m]-part composition of [n] either
    has a last part that can be lowered, or starts a shorter one. *)
Lemma ncomp_pascal m n :
  2 <= m -> 1 <= n -> ncomp m n = ncomp m (n - 1) + ncomp (m - 1) n.
Proof.
  intros Hm Hn. rewrite !ncomp_binom by lia.
  replace (Z.to_nat (n + m - 1)) with (S (Z.to_nat (n + m - 2))) by lia.
  replace (Z.to_nat (m - 1)) with (S (Z.to_nat (m - 2))) by lia.
  rewrite binom_succ.
  replace (n - 1 + m - 1) with (n + m - 2) by lia.
  replace (n + (m - 1) - 1) with (n + m - 2) by lia.
  replace (m - 1 - 1) with (m - 2) by lia. lia.
Qed.

Lemma ncomp_mono_parts m s : 2 <= m -> 0 <= s -> ncomp (m - 1) s <= ncomp m s.
Proof.
  intros Hm Hs. destruct (decide (s = 0)) as [->|Hne].
  - rewrite !ncomp_zero by lia. lia.
  - rewrite (ncomp_pascal m s) by lia.
    pose proof (ncomp_pos m (s - 1) ltac:(lia) ltac:(lia)). lia.
Qed.

Lemma ncomp_mono m a b :
  1 <= m -> 0 <= a <= b -> ncomp m a <= ncomp m b.
Proof.
  intros Hm Hab.
  replace b with (a + Z.of_nat (Z.to_nat (b - a))) by lia.
  induction (Z.to_nat (b - a)) as [|d IH].
  - replace (a + Z.of_nat 0) with a by lia. lia.
  - destruct (decide (m = 1)) as [->|Hne].
    + rewrite !ncomp_one by lia. lia.
    + rewrite (ncomp_pascal m (a + Z.of_nat (S d))) by lia.
      replace (a + Z.of_nat (S d) - 1) with (a + Z.of_nat d) by lia.
      pose proof (ncomp_pos (m - 1) (a + Z.of_nat (S d)) ltac:(lia) ltac:(lia)).
      lia.
Qed.

Lemma ncomp_mono_m n m' : forall m,
  1 <= m' <= m -> 0 <= n -> ncomp m' n <= ncomp m n.
Proof.
  intros m Hm Hn.
  replace m with (m' + Z.of_nat (Z.to_nat (m - m'))) by lia.
  induction (Z.to_nat (m - m')) as [|d IH].
  - replace (m' + Z.of_nat 0) with m' by lia. lia.
  - pose proof (ncomp_mono_parts (m' + Z.of_nat (S d)) n ltac:(lia) Hn) as H.
    replace (m' + Z.of_nat (S d) - 1) with (m' + Z.of_nat d) in H by lia.
    lia.
Qed.

Lemma ncomp_mono_both m' n' m n :
  1 <= m' <= m -> 0 <= n' <= n -> ncomp m' n' <= ncomp m n.
Proof.
  intros Hm Hn.
  pose proof (ncomp_mono_m n' m' m Hm ltac:(lia)).
  pose proof (ncomp_mono m n' n ltac:(lia) Hn). lia.
Qed.

Lemma binom_one n : binom n 1 = n.
Proof.
  induction n as [|n IH]; [done|].
  rewrite binom_succ, binom_0_r, IH. done.
Qed.

Lemma ncomp_two n : 0 <= n -> ncomp 2 n = n + 1.
Proof.
  intros Hn. rewrite ncomp_binom by lia.
  change (Z.to_nat (2 - 1)) with 1%nat. rewrite binom_one. lia.
Qed.

(** With two parts or more there are more compositions than n. *)
Lemma ncomp_above_sum m n : 2 <= m -> 0 <= n -> n + 1 <= ncomp m n.
Proof.
  intros Hm Hn. rewrite <- (ncomp_two n) by done.
  apply ncomp_mono_m; lia.
Qed.

(** ** 64-bit arithmetic that does not wrap *)

Lemma fits64_spec z : fits64 z = true <-> - 2 ^ 63 <= z < 2 ^ 63.
Proof. unfold fits64. rewrite andb_true_iff, Z.leb_le, Z.ltb_lt. done. Qed.

Lemma wrap64_fits z : - 2 ^ 63 <= z < 2 ^ 63 -> wrap64 z = z.
Proof.
  intros H. unfold wrap64.
  rewrite Z.mod_small; [lia|].
  change (2 ^ 64) with (2 * 2 ^ 63). lia.
Qed.

Lemma fits64_wrap64 z : fits64 (wrap64 z) = true.
Proof.
  apply fits64_spec. unfold wrap64.
  pose proof (Z.mod_pos_bound (z + 2 ^ 63) (2 ^ 64) ltac:(done)) as H.
  change (2 ^ 64) with (2 * 2 ^ 63) in *. lia.
Qed.

Lemma pow63_pos : 0 < 2 ^ 63.
Proof. done. Qed.

Lemma num_sub_val a b :
  - 2 ^ 63 <= num_val a - num_val b < 2 ^ 63 ->
  num_val (num_sub a b) = num_val a - num_val b.
Proof.
  intros H. destruct a as [x|x], b as [y|y]; simpl in *; [done| | |].
  - destruct (fits64 x); simpl; [by apply wrap64_fits | done].
  - destruct (fits64 y); simpl; [by apply wrap64_fits | done].
  - by apply wrap64_fits.
Qed.

Lemma binom_mono_step (N r : nat) :
  (2 * (r + 1) <= N)%nat -> (binom N r <= binom N (r + 1))%nat.
Proof.
  intros H. pose proof (binom_next N r ltac:(lia)) as Hn.
  replace (r + 1)%nat with (S r) by lia. nia.
Qed.

(** The loop of [comb] on an int64 scalar computes the same binomial
    coefficients as long as the largest product fits. *)
Lemma comb64_loop (N : nat) : forall r : nat,
  (2 * r <= N)%nat ->
  Z.of_nat N < 2 ^ 63 ->
  Z.of_nat r * Z.of_nat (binom N r) < 2 ^ 63 ->
  num_val
    (fold_left
       (fun val j =>
          NpInt (wrap64 (num_val val * wrap64 (Z.of_nat N - j)) / (j + 1)))
       (range 0 (Z.of_nat r)) (PyInt 1))
  = Z.of_nat (binom N r).
Proof.
  intros r. induction r as [|r IH]; intros Hr HN Hb.
  - rewrite binom_0_r. done.
  - pose proof (binom_mono_step N r ltac:(lia)) as Hmono.
    replace (r + 1)%nat with (S r) in Hmono by lia.
    pose proof (binom_next N r ltac:(lia)) as Hn.
    replace (Z.of_nat (S r)) with (Z.of_nat r + 1) by lia.
    rewrite range_snoc by lia.
    rewrite fold_left_app. cbn [fold_left num_val].
    rewrite IH by nia.
    rewrite (wrap64_fits (Z.of_nat N - Z.of_nat r)) by lia.
    rewrite wrap64_fits by nia.
    symmetry. apply Z.div_unique_exact; [lia|]. nia.
Qed.

Lemma comb64_exact (N k : Z) :
  0 <= k <= N -> N < 2 ^ 63 ->
  Z.min k (N - k) * comb N k < 2 ^ 63 ->
  num_val (comb64 N k) = comb N k.
Proof.
  intros Hk HN Hb. rewrite comb_binom in * by done. unfold comb64.
  replace ((k >? N) || (N <? 0) || (k <? 0)) with false
    by (symmetry; rewrite !orb_false_iff; repeat split; lia).
  rewrite (wrap64_fits (N - k)) by lia.
  assert (Hsym : binom (Z.to_nat N) (Z.to_nat k)
                 = binom (Z.to_nat N) (Z.to_nat (Z.min k (N - k)))).
  { destruct (Z.min_spec k (N - k)) as [[_ ->]|[_ ->]]; [done|].
    replace (Z.to_nat (N - k)) with (Z.to_nat N - Z.to_nat k)%nat by lia.
    symmetry. apply binom_sym. lia. }
  rewrite Hsym in *.
  pose proof (comb64_loop (Z.to_nat N) (Z.to_nat (Z.min k (N - k)))
                ltac:(lia) ltac:(lia) ltac:(lia)) as Hl.
  rewrite !Z2Nat.id in Hl by lia. exact Hl.
Qed.

(** ** Array accesses that succeed *)

Lemma np_index_ok (len : nat) (k : nat) :
  (k < len)%nat -> np_index len (Z.of_nat k) = Ok k.
Proof.
  intros H. unfold np_index.
  replace ((0 <=? Z.of_nat k) && (Z.of_nat k <? Z.of_nat len)) with true
    by (symmetry; apply andb_true_iff; lia).
  by rewrite Nat2Z.id.
Qed.

Lemma np_get_ok (a : list Z) (k : nat) v :
  a !! k = Some v -> np_get a (Z.of_nat k) = Ok v.
Proof.
  intros H. unfold np_get.
  rewrite np_index_ok by (by eapply lookup_lt_Some).
  simpl. by rewrite H.
Qed.

Lemma np_set_ok (a : list Z) (k : nat) v :
  (k < length a)%nat -> fits64 v = true ->
  np_set a (Z.of_nat k) v = Ok (<[k := v]> a).
Proof. intros H Hv. unfold np_set. rewrite np_index_ok by done. simpl. by rewrite Hv. Qed.

Lemma np_set_overflow (a : list Z) (k : nat) v :
  (k < length a)%nat -> fits64 v = false ->
  np_set a (Z.of_nat k) v = Raise OverflowError.
Proof. intros H Hv. unfold np_set. rewrite np_index_ok by done. simpl. by rewrite Hv. Qed.

Lemma nb_index_ok (len : nat) (k : nat) :
  (k < len)%nat -> nb_index len (Z.of_nat k) = Some k.
Proof.
  intros H. unfold nb_index.
  replace ((0 <=? Z.of_nat k) && (Z.of_nat k <? Z.of_nat len)) with true
    by (symmetry; apply andb_true_iff; lia).
  by rewrite Nat2Z.id.
Qed.

Lemma nb_get_ok (a : list Z) (k : nat) v :
  a !! k = Some v -> nb_get a (Z.of_nat k) = Ok v.
Proof.
  intros H. unfold nb_get.
  rewrite nb_index_ok by (by eapply lookup_lt_Some). by rewrite H.
Qed.

Lemma nb_set_ok (a : list Z) (k : nat) v :
  (k < length a)%nat -> nb_set a (Z.of_nat k) v = <[k := v]> a.
Proof. intros H. unfold nb_set. by rewrite nb_index_ok. Qed.

(** ** Sums *)

Lemma zsum_app l1 l2 : zsum (l1 ++ l2) = zsum l1 + zsum l2.
Proof. induction l1 as [|a l1 IH]; simpl; lia. Qed.

Lemma zsum_rev l : zsum (rev l) = zsum l.
Proof. induction l as [|a l IH]; simpl; [done|]. rewrite zsum_app. simpl. lia. Qed.

Lemma zsum_replicate_0 k : zsum (replicate k 0) = 0.
Proof. induction k; simpl; lia. Qed.

Lemma zsum_nonneg l : Forall (fun v => 0 <= v) l -> 0 <= zsum l.
Proof. induction 1; simpl; lia. Qed.

Lemma zcumsum_from_snoc l : forall acc v,
  zcumsum_from acc (l ++ [v]) = zcumsum_from acc l ++ [acc + zsum l + v].
Proof.
  induction l as [|a l IH]; intros acc v; simpl.
  - f_equal. lia.
  - rewrite IH. do 3 f_equal. lia.
Qed.

Lemma zdecumsum_suffix_sums l : rev (zcumsum_from 0 (rev l)) = suffix_sums l.
Proof.
  induction l as [|a l IH]; [done|].
  simpl. rewrite zcumsum_from_snoc, rev_app_distr. simpl.
  rewrite IH, zsum_rev. done.
Qed.

(** On nonnegative entries whose sum fits, [np.cumsum] does not wrap. *)
Lemma cumsum_from_exact l : forall acc,
  0 <= acc -> Forall (fun v => 0 <= v) l -> acc + zsum l < 2 ^ 63 ->
  cumsum_from acc l = zcumsum_from acc l.
Proof.
  induction l as [|a l IH]; intros acc Hacc Hl Hs; [done|].
  apply Forall_cons in Hl as [Ha Hl].
  pose proof (zsum_nonneg _ Hl) as Hnn.
  change (zsum (a :: l)) with (a + zsum l) in Hs.
  pose proof pow63_pos.
  cbn [cumsum_from zcumsum_from].
  rewrite wrap64_fits by lia. rewrite IH by (done || lia). done.
Qed.

Lemma decumsum_suffix_sums l :
  Forall (fun v => 0 <= v) l -> zsum l < 2 ^ 63 ->
  rev (np_cumsum (rev l)) = suffix_sums l.
Proof.
  intros Hl Hs. unfold np_cumsum.
  rewrite cumsum_from_exact, zdecumsum_suffix_sums; [done | done | |].
  - by apply Forall_rev.
  - by rewrite zsum_rev.
Qed.

Lemma length_suffix_sums l : length (suffix_sums l) = length l.
Proof. induction l; simpl; congruence. Qed.

Lemma suffix_sums_bounds l :
  Forall (fun v => 0 <= v) l ->
  Forall (fun s => 0 <= s <= zsum l) (suffix_sums l).
Proof.
  induction 1 as [|a l Ha Hl IH]; [done|].
  pose proof (zsum_nonneg _ Hl) as Hnn.
  cbn [suffix_sums]. constructor; [simpl; lia|].
  eapply Forall_impl; [exact IH|]. simpl. intros s Hs. lia.
Qed.

(** ** The two rankers *)

Lemma simplex_index_rec_cons a x m n :
  simplex_index_rec (a :: x) m n
  = if m =? 1 then Ok 0
    else
      do r <- simplex_index_rec x (m - 1) (if a =? 0 then n else n - a);
      Ok ((if a =? 0 then 0 else ncomp m n - ncomp m (n - a)) + r).
Proof.
  cbn [simplex_index_rec]. destruct (m =? 1); [done|].
  destruct (a =? 0); done.
Qed.

Lemma simplex_index_rec_rank x : forall m n,
  Z.of_nat (length x) = m -> 1 <= m ->
  simplex_index_rec x m n = Ok (rank x n).
Proof.
  induction x as [|a x IH]; intros m n Hlen Hm; [simpl in Hlen; lia|].
  rewrite simplex_index_rec_cons.
  destruct x as [|b x].
  - simpl in *. by replace (m =? 1) with true by lia.
  - replace (m =? 1) with false by (simpl in Hlen; lia).
    rewrite (IH (m - 1)) by (simpl in *; lia).
    cbn [bind rank]. rewrite Hlen.
    destruct (Z.eqb_spec a 0) as [->|Ha]; [|done].
    rewrite Z.sub_0_r. f_equal. lia.
Qed.

Section IndexLoop.

Variables (n mtop : Z).
Hypothesis Hmtop : 2 <= mtop.
Hypothesis Hn : 0 <= n.
Hypothesis Hcells : mtop * ncomp mtop n < 2 ^ 63.

Lemma cells_sum_fits : n + mtop < 2 ^ 63.
Proof using Hmtop Hn Hcells.
  pose proof (ncomp_above_sum mtop n Hmtop Hn). nia.
Qed.

(** One call of [num_compositions] from the loop: nothing wraps and the
    count is at most the count of the whole problem. *)
Lemma num_compositions64_exact m s :
  2 <= m <= mtop -> 1 <= s <= n ->
  exists c,
    num_compositions64 m (wrap64 (s - 1)) = Ok c /\
    num_val c = ncomp m (s - 1) /\
    0 <= num_val c <= ncomp mtop n.
Proof using Hmtop Hn Hcells.
  intros Hm Hs. pose proof cells_sum_fits as Hfit. pose proof pow63_pos.
  unfold num_compositions64. eexists. split; [done|].
  rewrite (wrap64_fits (s - 1)) by lia.
  rewrite (wrap64_fits (s - 1 + m)) by lia.
  rewrite (wrap64_fits (s - 1 + m - 1)) by lia.
  pose proof (ncomp_mono_both m (s - 1) mtop n ltac:(lia) ltac:(lia)) as Hle.
  pose proof (ncomp_pos m (s - 1) ltac:(lia) ltac:(lia)) as Hpos.
  assert (Hex : num_val (comb64 (s - 1 + m - 1) (m - 1)) = ncomp m (s - 1)).
  { apply comb64_exact; [lia | lia |].
    fold (ncomp m (s - 1)).
    assert (Z.min (m - 1) (s - 1 + m - 1 - (m - 1)) <= mtop) by lia.
    assert (0 <= Z.min (m - 1) (s - 1 + m - 1 - (m - 1))) by lia.
    nia. }
  rewrite Hex. split; [done | lia].
Qed.

Lemma index_loop_exact ss : forall pre m idx,
  Forall (fun s => 0 <= s <= n) ss ->
  Z.of_nat (length ss) + 1 <= m - Z.of_nat (length pre) <= mtop ->
  - 2 ^ 63 <= num_val idx - Z.of_nat (length ss) * ncomp mtop n ->
  num_val idx < 2 ^ 63 ->
  exists idx',
    index_loop (pre ++ ss) m
      (range (Z.of_nat (length pre)) (Z.of_nat (length pre + length ss))) idx
    = Ok idx' /\
    num_val idx' = drop_count ss (m - Z.of_nat (length pre)) (num_val idx).
Proof using Hmtop Hn Hcells.
  induction ss as [|s ss IH]; intros pre m idx Hss Hm Hlo Hhi.
  - rewrite range_nil by (simpl; lia). by eexists.
  - apply Forall_cons in Hss as [Hs Hss].
    rewrite range_cons by (simpl; lia). cbn [index_loop].
    rewrite (np_get_ok _ _ s) by (by rewrite list_lookup_middle).
    cbn [bind drop_count]. destruct (Z.eqb_spec s 0) as [->|Hs0]; [by eexists|].
    cbn [length] in Hm, Hlo.
    destruct (num_compositions64_exact (m - Z.of_nat (length pre)) s
                ltac:(lia) ltac:(lia)) as (c & Hc & Hcv & Hcb).
    rewrite Hc. cbn [bind].
    assert (Hsub : num_val (num_sub idx c) = num_val idx - num_val c)
      by (apply num_sub_val; nia).
    replace (range (Z.of_nat (length pre) + 1)
                   (Z.of_nat (length pre + length (s :: ss))))
      with (range (Z.of_nat (length (pre ++ [s])))
                  (Z.of_nat (length (pre ++ [s]) + length ss)))
      by (rewrite length_app; simpl; f_equal; lia).
    replace (pre ++ s :: ss) with ((pre ++ [s]) ++ ss)
      by (by rewrite <- app_assoc).
    destruct (IH (pre ++ [s]) m (num_sub idx c) Hss) as (idx' & Hrun & Hval).
    + rewrite length_app. simpl. lia.
    + rewrite Hsub. nia.
    + rewrite Hsub. lia.
    + exists idx'. split; [done|].
      rewrite Hval, Hsub, Hcv, length_app. cbn [length].
      replace (m - Z.of_nat (length pre + 1)) with (m - Z.of_nat (length pre) - 1)
        by lia.
      done.
Qed.

End IndexLoop.

Lemma simplex_index_drop_count x m n :
  Z.of_nat (length x) = m -> 2 <= m ->
  Forall (fun v => 0 <= v) x -> zsum x = n ->
  m * ncomp m n < 2 ^ 63 ->
  simplex_index x m n
  = Ok (drop_count (suffix_sums (tail x)) m (ncomp m n - 1)).
Proof.
  intros Hlen Hm Hx Hs Hcells.
  pose proof (zsum_nonneg _ Hx) as Hn. rewrite Hs in Hn.
  pose proof (cells_sum_fits n m Hm Hn Hcells) as Hfit.
  pose proof (ncomp_pos m n ltac:(lia) Hn) as HL.
  destruct x as [|a x]; [simpl in Hlen; lia|].
  apply Forall_cons in Hx as [Ha Hx].
  change (zsum (a :: x)) with (a + zsum x) in Hs.
  pose proof (zsum_nonneg _ Hx) as Hnx.
  unfold simplex_index. replace (m =? 1) with false by lia.
  rewrite num_compositions_ok. cbn [bind tail].
  rewrite decumsum_suffix_sums by (done || lia).
  destruct (index_loop_exact n m Hm Hn Hcells (suffix_sums x) [] m
              (PyInt (ncomp m n - 1))) as (idx' & Hrun & Hval).
  - eapply Forall_impl; [by apply suffix_sums_bounds|].
    simpl. intros s Hsb. lia.
  - rewrite length_suffix_sums. simpl in *. lia.
  - rewrite length_suffix_sums. simpl in *. nia.
  - simpl. lia.
  - cbn [app length Nat.add] in Hrun. change (Z.of_nat 0) with 0 in Hrun.
    rewrite length_suffix_sums in Hrun.
    replace (Z.of_nat (length x)) with (m - 1) in Hrun by (simpl in Hlen; lia).
    rewrite Hrun. cbn [bind]. rewrite Hval. simpl. do 2 f_equal. lia.
Qed.

Lemma drop_count_shift ss : forall m idx c,
  drop_count ss m (idx + c) = drop_count ss m idx + c.
Proof.
  induction ss as [|s ss IH]; intros m idx c; simpl; [done|].
  destruct (s =? 0); [done|].
  rewrite <- IH. f_equal. lia.
Qed.

Lemma rank_cons a b x n :
  rank (a :: b :: x) n
  = ncomp (Z.of_nat (length (a :: b :: x))) n
    - ncomp (Z.of_nat (length (a :: b :: x))) (n - a)
    + rank (b :: x) (n - a).
Proof. done. Qed.

Lemma rank_zeros x :
  Forall (fun v => 0 <= v) x -> zsum x = 0 -> rank x 0 = 0.
Proof.
  induction x as [|a x IH]; intros Hx Hs; [done|].
  destruct x as [|b x]; [done|].
  inversion Hx as [|? ? Ha Hx']; subst.
  pose proof (zsum_nonneg _ Hx') as Hnn.
  change (zsum (a :: b :: x)) with (a + zsum (b :: x)) in Hs.
  assert (a = 0) as -> by lia.
  rewrite rank_cons, Z.sub_0_r, IH by (done || lia). lia.
Qed.

(** The loop of [simplex_index] computes the same number as the
    recursion of [simplex_index_rec]. *)
Lemma drop_count_rank x : forall n,
  x <> [] -> Forall (fun v => 0 <= v) x -> zsum x = n ->
  drop_count (suffix_sums (tail x)) (Z.of_nat (length x))
             (ncomp (Z.of_nat (length x)) n - 1)
  = rank x n.
Proof.
  induction x as [|a x IH]; intros n Hne Hx Hs; [done|].
  inversion Hx as [|? ? Ha Hx']; subst.
  destruct x as [|b x].
  - simpl. rewrite ncomp_one; [done|]. simpl. lia.
  - pose proof (zsum_nonneg _ Hx') as Hnn.
    set (s0 := zsum (b :: x)) in *.
    set (m := Z.of_nat (length (a :: b :: x))).
    assert (Hm : 2 <= m) by (unfold m; simpl; lia).
    assert (Hm1 : Z.of_nat (length (b :: x)) = m - 1) by (unfold m; simpl; lia).
    specialize (IH s0 ltac:(done) Hx' eq_refl).
    rewrite Hm1 in IH.
    change (zsum (a :: b :: x)) with (a + s0).
    change (tail (a :: b :: x)) with (b :: x).
    change (suffix_sums (b :: x)) with ((zsum x + b) :: suffix_sums x).
    replace (zsum x + b) with s0 by (unfold s0; simpl; lia).
    rewrite rank_cons. fold m.
    replace (a + s0 - a) with s0 by lia.
    cbn [drop_count]. destruct (Z.eqb_spec s0 0) as [H0|H0].
    + rewrite H0, rank_zeros, ncomp_zero by (done || lia). lia.
    + rewrite <- IH.
      change (tail (b :: x)) with x.
      replace (ncomp m (a + s0) - 1 - ncomp m (s0 - 1))
        with ((ncomp (m - 1) s0 - 1) + (ncomp m (a + s0) - ncomp m s0))
        by (rewrite (ncomp_pascal m s0) by lia; lia).
      rewrite drop_count_shift. lia.
Qed.

Lemma simplex_index_rank x m n :
  1 <= m -> is_composition m n x -> m * ncomp m n < 2 ^ 63 ->
  simplex_index x m n = Ok (rank x n).
Proof.
  intros Hm (Hlen & Hx & Hs) Hcells.
  destruct (decide (m = 1)) as [->|Hne].
  - unfold simplex_index. simpl.
    destruct x as [|a [|b x]]; simpl in Hlen; try lia. done.
  - rewrite simplex_index_drop_count by (done || lia).
    rewrite <- (drop_count_rank x n); [by rewrite Hlen | | done | done].
    intros ->. simpl in Hlen. lia.
Qed.

(** ** One step of the enumeration on the scanned shape *)

Lemma insert_last (l : list Z) v u : <[length l := u]> (l ++ [v]) = l ++ [u].
Proof. rewrite insert_app_r_alt by lia. by rewrite Nat.sub_diag. Qed.

Lemma first_state_eq m n :
  1 <= m -> first_state m n = (replicate (Z.to_nat (m - 1)) 0 ++ [n], m).
Proof.
  intros Hm. unfold first_state. f_equal.
  replace (Z.to_nat m) with (S (Z.to_nat (m - 1))) by lia.
  rewrite replicate_S_end.
  rewrite <- (length_replicate (Z.to_nat (m - 1)) 0) at 1.
  apply insert_last.
Qed.

(** On [pre ++ a :: w :: 0 ... 0] with the pointer just right of [w], the
    step moves one unit to [a] and the rest of [w] to the last place. *)
Lemma next_state_scan pre a w k :
  let x := pre ++ a :: w :: replicate k 0 in
  let m := Z.of_nat (length x) in
  next_state m (x, Z.of_nat (length pre) + 2)
  = (pre ++ (a + 1) :: replicate k 0 ++ [w - 1],
     if w =? 1 then Z.of_nat (length pre) + 1 else m).
Proof.
  intros x m. unfold next_state.
  assert (Hm : m = Z.of_nat (length pre + 2 + k)).
  { unfold m, x. rewrite length_app. simpl. rewrite length_replicate. lia. }
  replace (Z.to_nat (Z.of_nat (length pre) + 2 - 1)) with (S (length pre)) by lia.
  replace (Z.to_nat (Z.of_nat (length pre) + 2 - 1 - 1)) with (length pre) by lia.
  replace (Z.to_nat (m - 1)) with (length pre + 1 + k)%nat by lia.
  replace (Z.of_nat (length pre) + 2 - 1) with (Z.of_nat (length pre) + 1) by lia.
  assert (Hw : x !!! S (length pre) = w).
  { apply list_lookup_total_correct. unfold x.
    change (pre ++ a :: w :: replicate k 0) with (pre ++ [a] ++ w :: replicate k 0).
    rewrite app_assoc. apply list_lookup_middle.
    rewrite length_app. simpl. lia. }
  rewrite Hw.
  assert (H1 : <[S (length pre) := 0]> x = pre ++ a :: replicate k 0 ++ [0]).
  { unfold x. rewrite insert_app_r_alt by lia.
    replace (S (length pre) - length pre)%nat with 1%nat by lia. simpl.
    by rewrite <- replicate_S_end. }
  rewrite H1.
  assert (H2 : <[(length pre + 1 + k)%nat := w - 1]> (pre ++ a :: replicate k 0 ++ [0])
               = pre ++ a :: replicate k 0 ++ [w - 1]).
  { change (pre ++ a :: replicate k 0 ++ [0])
      with (pre ++ (a :: replicate k 0) ++ [0]).
    rewrite app_assoc.
    replace (length pre + 1 + k)%nat with (length (pre ++ a :: replicate k 0))
      by (rewrite length_app; simpl; rewrite length_replicate; lia).
    rewrite insert_last. by rewrite <- app_assoc. }
  rewrite H2.
  assert (H3 : (pre ++ a :: replicate k 0 ++ [w - 1]) !!! length pre = a).
  { apply list_lookup_total_correct. by apply list_lookup_middle. }
  rewrite H3. f_equal.
  rewrite insert_app_r_alt by lia. by rewrite Nat.sub_diag.
Qed.

Lemma rank_tail a tl n :
  tl <> [] ->
  rank (a :: tl) n
  = ncomp (Z.of_nat (length (a :: tl))) n
    - ncomp (Z.of_nat (length (a :: tl))) (n - a)
    + rank tl (n - a).
Proof. intros H. destruct tl; [done|]. apply rank_cons. Qed.

(** The lowest point: all weight on the last coordinate. *)
Lemma rank_first k v : rank (replicate k 0 ++ [v]) v = 0.
Proof.
  induction k as [|k IH]; [done|].
  change (replicate (S k) 0 ++ [v]) with (0 :: (replicate k 0 ++ [v])).
  rewrite rank_tail by (by destruct k).
  rewrite Z.sub_0_r, IH. lia.
Qed.

(** The highest point: all weight on the first coordinate. *)
Lemma rank_last k v :
  0 <= v -> rank (v :: replicate k 0) v = ncomp (Z.of_nat (S k)) v - 1.
Proof.
  intros Hv. destruct k as [|k].
  - simpl. rewrite ncomp_one; [done | lia].
  - change (replicate (S k) 0) with (0 :: replicate k 0).
    rewrite rank_cons. rewrite Z.sub_diag.
    replace (length (v :: 0 :: replicate k 0)) with (S (S k))
      by (simpl; by rewrite length_replicate).
    rewrite ncomp_zero by lia.
    rewrite rank_zeros; [lia | |].
    + constructor; [lia|]. apply Forall_replicate. lia.
    + change (zsum (0 :: replicate k 0)) with (0 + zsum (replicate k 0)).
      by rewrite zsum_replicate_0.
Qed.

(** Two vectors with a common prefix differ in rank by what their
    remainders differ. *)
Lemma rank_app_diff pre : forall r1 r2 n,
  length r1 = length r2 -> r1 <> [] ->
  rank (pre ++ r1) n - rank (pre ++ r2) n
  = rank r1 (n - zsum pre) - rank r2 (n - zsum pre).
Proof.
  induction pre as [|p pre IH]; intros r1 r2 n Hlen Hne.
  - simpl. by rewrite Z.sub_0_r.
  - assert (r2 <> []) by (destruct r1, r2; done).
    simpl app. rewrite !rank_tail by (by destruct pre, r1, r2).
    replace (length (p :: pre ++ r2)) with (length (p :: pre ++ r1))
      by (simpl; rewrite !length_app; lia).
    pose proof (IH r1 r2 (n - p) Hlen Hne) as Hd.
    change (zsum (p :: pre)) with (p + zsum pre).
    replace (n - (p + zsum pre)) with (n - p - zsum pre) by lia.
    lia.
Qed.

Lemma rank_step pre a w k n :
  1 <= w ->
  zsum (pre ++ a :: w :: replicate k 0) = n ->
  rank (pre ++ (a + 1) :: replicate k 0 ++ [w - 1]) n
  = rank (pre ++ a :: w :: replicate k 0) n + 1.
Proof.
  intros Hw Hs.
  pose proof (rank_app_diff pre ((a + 1) :: replicate k 0 ++ [w - 1])
                (a :: w :: replicate k 0) n) as Hd.
  rewrite zsum_app in Hs.
  change (zsum (a :: w :: replicate k 0)) with (a + (w + zsum (replicate k 0))) in Hs.
  rewrite zsum_replicate_0 in Hs.
  replace (n - zsum pre) with (a + w) in Hd by lia.
  rewrite rank_tail in Hd by (by destruct k).
  rewrite rank_cons in Hd.
  replace (a + w - (a + 1)) with (w - 1) in Hd by lia.
  replace (a + w - a) with w in Hd by lia.
  rewrite rank_first, rank_last in Hd by lia.
  replace (length ((a + 1) :: replicate k 0 ++ [w - 1])) with (S (S k)) in Hd
    by (simpl; rewrite length_app, length_replicate; simpl; lia).
  replace (length (a :: w :: replicate k 0)) with (S (S k)) in Hd
    by (simpl; by rewrite length_replicate).
  pose proof (ncomp_pascal (Z.of_nat (S (S k))) w ltac:(lia) Hw) as Hp.
  replace (Z.of_nat (S (S k)) - 1) with (Z.of_nat (S k)) in Hp by lia.
  assert (Hl : S (S k) = S (S k)) by done.
  specialize (Hd Hl ltac:(done)).
  lia.
Qed.

(** ** Lexicographic order *)

Lemma lex_lt_irrefl x : ~ lex_lt x x.
Proof.
  unfold lex_lt. induction x as [|a x IH]; simpl; [done|].
  rewrite Z.ltb_irrefl, Z.eqb_refl. simpl. done.
Qed.

Lemma lex_lt_trans x : forall y z, lex_lt x y -> lex_lt y z -> lex_lt x z.
Proof.
  unfold lex_lt.
  induction x as [|a x IH]; intros [|b y] [|c z]; simpl; try done.
  rewrite !orb_true_iff, !andb_true_iff.
  rewrite !Z.ltb_lt, !Z.eqb_eq.
  intros [Hab|[Hab Hxy]] [Hbc|[Hbc Hyz]]; try (left; lia).
  right. split; [lia|]. by eapply IH.
Qed.

Lemma lex_lt_app pre r1 r2 : lex_lt r1 r2 -> lex_lt (pre ++ r1) (pre ++ r2).
Proof.
  unfold lex_lt. intros H.
  induction pre as [|p pre IH]; simpl; [done|].
  rewrite IH, Z.eqb_refl. apply orb_true_r.
Qed.

Lemma lex_lt_step pre a w k :
  lex_lt (pre ++ a :: w :: replicate k 0)
         (pre ++ (a + 1) :: replicate k 0 ++ [w - 1]).
Proof.
  apply lex_lt_app. unfold lex_lt. simpl.
  replace (a <? a + 1) with true by lia. done.
Qed.

(** ** The invariant of the enumeration *)

Lemma scan_form_composition n x h :
  scan_form n x h -> is_composition (Z.of_nat (length x)) n x.
Proof.
  intros (pre & w & k & -> & _ & Hw & Hpre & Hs).
  split; [done|]. split; [|done].
  apply Forall_app. split; [done|].
  constructor; [lia|]. apply Forall_replicate. lia.
Qed.

Lemma scan_form_pointer n x h :
  scan_form n x h -> 1 <= h <= Z.of_nat (length x).
Proof.
  intros (pre & w & k & -> & -> & _).
  rewrite length_app. simpl. lia.
Qed.

(** With the pointer at 1 the vector is the last one. *)
Lemma scan_form_last n x :
  scan_form n x 1 ->
  x = n :: replicate (length x - 1) 0 /\
  rank x n = ncomp (Z.of_nat (length x)) n - 1.
Proof.
  intros (pre & w & k & -> & Hh & Hw & _ & Hs).
  destruct pre as [|p pre]; [|simpl in Hh; lia].
  cbn [app] in *.
  change (zsum (w :: replicate k 0)) with (w + zsum (replicate k 0)) in Hs.
  rewrite zsum_replicate_0 in Hs.
  assert (w = n) as -> by lia.
  cbn [length]. rewrite length_replicate.
  replace (S k - 1)%nat with k by lia.
  split; [done|]. apply rank_last. lia.
Qed.

(** With the pointer further right, one step keeps the invariant, raises
    the rank by one and moves up in lexicographic order. *)
Lemma scan_form_step n x h :
  scan_form n x h -> 2 <= h ->
  let s := next_state (Z.of_nat (length x)) (x, h) in
  scan_form n (fst s) (snd s) /\
  length (fst s) = length x /\
  rank (fst s) n = rank x n + 1 /\
  lex_lt x (fst s).
Proof.
  intros (pre & w & k & -> & -> & Hw & Hpre & Hs) Hh.
  destruct pre as [|a pre _] using rev_ind; [simpl in Hh; lia|].
  rewrite Forall_app, Forall_singleton in Hpre. destruct Hpre as [Hpre Ha0].
  revert Hs. rewrite <- app_assoc. cbn [app]. intros Hs.
  replace (Z.of_nat (length (pre ++ [a])) + 1) with (Z.of_nat (length pre) + 2)
    by (rewrite length_app; simpl; lia).
  rewrite next_state_scan. cbn [fst snd].
  split; [|split; [|split]].
  - destruct (Z.eqb_spec w 1) as [->|Hne].
    + exists pre, (a + 1), (S k).
      rewrite replicate_S_end. change (1 - 1) with 0.
      split; [done|]. split; [done|]. split; [lia|]. split; [done|].
      rewrite zsum_app in *. simpl in *. rewrite zsum_app in *. simpl.
      rewrite zsum_replicate_0 in *. lia.
    + exists (pre ++ (a + 1) :: replicate k 0), (w - 1), 0%nat.
      rewrite <- app_assoc. simpl app.
      split; [done|]. split.
      { rewrite !length_app. simpl. rewrite length_replicate. lia. }
      split; [lia|]. split.
      { apply Forall_app. split; [done|].
        constructor; [lia|]. apply Forall_replicate. lia. }
      rewrite zsum_app in *. simpl in *. rewrite zsum_app in *. simpl.
      rewrite zsum_replicate_0 in *. lia.
  - rewrite !length_app. simpl. rewrite length_app. simpl. lia.
  - by apply rank_step.
  - apply lex_lt_step.
Qed.

(** No composition ranks above the last index. *)
Lemma rank_upper x : forall n,
  x <> [] -> Forall (fun v => 0 <= v) x -> zsum x = n ->
  rank x n <= ncomp (Z.of_nat (length x)) n - 1.
Proof.
  induction x as [|a x IH]; intros n Hne Hx Hs; [done|].
  inversion Hx as [|? ? Ha Hx']; subst.
  destruct x as [|b x].
  - simpl. rewrite ncomp_one; [lia | simpl; lia].
  - pose proof (zsum_nonneg _ Hx') as Hnn.
    rewrite rank_cons.
    change (zsum (a :: b :: x)) with (a + zsum (b :: x)).
    replace (a + zsum (b :: x) - a) with (zsum (b :: x)) by lia.
    specialize (IH (zsum (b :: x)) ltac:(done) Hx' eq_refl).
    pose proof (ncomp_mono_parts (Z.of_nat (length (a :: b :: x))) (zsum (b :: x))
                  ltac:(simpl; lia) Hnn) as Hmono.
    replace (Z.of_nat (length (a :: b :: x)) - 1)
      with (Z.of_nat (length (b :: x))) in Hmono by (simpl; lia).
    lia.
Qed.

(** ** The states of the enumeration *)

Lemma state_at_succ m n k : state_at m n (S k) = next_state m (state_at m n k).
Proof. done. Qed.

Lemma state_at_scan m n :
  1 <= m -> 1 <= n ->
  forall k : nat,
    Z.of_nat k <= ncomp m n - 1 ->
    scan_form n (fst (state_at m n k)) (snd (state_at m n k)) /\
    Z.of_nat (length (fst (state_at m n k))) = m /\
    rank (fst (state_at m n k)) n = Z.of_nat k.
Proof.
  intros Hm Hn. induction k as [|k IH]; intros Hk.
  - unfold state_at. simpl Nat.iter. rewrite first_state_eq by done.
    cbn [fst snd]. split; [|split].
    + exists (replicate (Z.to_nat (m - 1)) 0), n, 0%nat.
      split; [done|]. split; [rewrite length_replicate; lia|].
      split; [done|]. split; [apply Forall_replicate; lia|].
      rewrite zsum_app, zsum_replicate_0. simpl. lia.
    + rewrite length_app, length_replicate. simpl. lia.
    + apply rank_first.
  - destruct IH as (Hsc & Hlen & Hr); [lia|].
    rewrite state_at_succ.
    destruct (state_at m n k) as [x h]. cbn [fst snd] in *.
    assert (Hh : 2 <= h).
    { pose proof (scan_form_pointer _ _ _ Hsc) as Hp.
      destruct (decide (h = 1)) as [->|]; [|lia].
      apply scan_form_last in Hsc as [_ Hlast].
      rewrite Hlen in Hlast. lia. }
    pose proof (scan_form_step n x h Hsc Hh) as Hstep.
    rewrite Hlen in Hstep. cbn zeta in Hstep.
    destruct Hstep as (H1 & H2 & H3 & _).
    split; [done|]. split; lia.
Qed.

Lemma state_at_spec m n (k : nat) :
  1 <= m -> 0 <= n -> Z.of_nat k <= ncomp m n - 1 ->
  is_composition m n (point_at m n k) /\
  rank (point_at m n k) n = Z.of_nat k /\
  1 <= snd (state_at m n k) <= m /\
  (Z.of_nat k < ncomp m n - 1 -> 2 <= snd (state_at m n k)).
Proof.
  intros Hm Hn Hk. unfold point_at.
  destruct (decide (n = 0)) as [->|Hn0].
  - rewrite ncomp_zero in * by done.
    assert (k = 0%nat) as -> by lia.
    unfold state_at. simpl Nat.iter. rewrite first_state_eq by done.
    cbn [fst snd]. split; [|split; [|lia]].
    + split; [rewrite length_app, length_replicate; simpl; lia|].
      split.
      * apply Forall_app. split; [apply Forall_replicate; lia|].
        by constructor.
      * rewrite zsum_app, zsum_replicate_0. done.
    + apply rank_first.
  - destruct (state_at_scan m n Hm ltac:(lia) k Hk) as (Hsc & Hlen & Hr).
    pose proof (scan_form_composition _ _ _ Hsc) as Hc.
    pose proof (scan_form_pointer _ _ _ Hsc) as Hp.
    rewrite Hlen in Hc, Hp. split; [done|]. split; [done|]. split; [done|].
    intros Hlt.
    destruct (decide ((state_at m n k).2 = 1)) as [H1|]; [|lia].
    rewrite H1 in Hsc. apply scan_form_last in Hsc as [_ Hlast].
    rewrite Hlen in Hlast. lia.
Qed.

(** The enumeration ends in the vector with all weight in front, and, for
    [n >= 1], with the pointer at 1. *)
Lemma state_at_last m n :
  1 <= m -> 0 <= n ->
  point_at m n (Z.to_nat (ncomp m n - 1)) = n :: replicate (Z.to_nat (m - 1)) 0 /\
  (1 <= n \/ m = 1 -> snd (state_at m n (Z.to_nat (ncomp m n - 1))) = 1).
Proof.
  intros Hm Hn. unfold point_at.
  pose proof (ncomp_pos m n Hm Hn) as HL.
  destruct (decide (n = 0)) as [->|Hn0].
  - rewrite ncomp_zero by done. change (Z.to_nat (1 - 1)) with 0%nat.
    unfold state_at. simpl Nat.iter. rewrite first_state_eq by done.
    cbn [fst snd]. split; [|lia].
    rewrite <- replicate_S_end. done.
  - destruct (state_at_scan m n Hm ltac:(lia) (Z.to_nat (ncomp m n - 1)) ltac:(lia))
      as (Hsc & Hlen & Hr).
    destruct (state_at m n (Z.to_nat (ncomp m n - 1))) as [x h].
    cbn [fst snd] in *.
    pose proof (scan_form_pointer _ _ _ Hsc) as Hp.
    assert (h = 1) as ->.
    { destruct (decide (h = 1)) as [|Hne]; [done|]. exfalso.
      destruct (scan_form_step n x h Hsc ltac:(lia)) as (Hsc' & Hlen' & Hr' & _).
      apply scan_form_composition in Hsc' as (_ & Hx' & Hs').
      pose proof (rank_upper _ n ltac:(intros Heq; rewrite Heq in Hlen'; simpl in Hlen'; lia)
                    Hx' Hs') as Hup.
      rewrite Hlen' in Hup. rewrite Hlen in Hup, Hr'. lia. }
    split; [|done].
    apply scan_form_last in Hsc as [Hx _].
    rewrite Hx. f_equal. f_equal. lia.
Qed.

Lemma point_at_lex_succ m n (k : nat) :
  1 <= m -> 0 <= n -> Z.of_nat (S k) <= ncomp m n - 1 ->
  lex_lt (point_at m n k) (point_at m n (S k)).
Proof.
  intros Hm Hn Hk. unfold point_at.
  destruct (decide (n = 0)) as [->|Hn0]; [rewrite ncomp_zero in Hk by done; lia|].
  destruct (state_at_scan m n Hm ltac:(lia) k ltac:(lia)) as (Hsc & Hlen & _).
  destruct (state_at_spec m n k Hm Hn ltac:(lia)) as (_ & _ & _ & Hh).
  rewrite state_at_succ.
  destruct (state_at m n k) as [x h]. cbn [fst snd] in *.
  destruct (scan_form_step n x h Hsc ltac:(lia)) as (_ & _ & _ & Hlex).
  by rewrite Hlen in Hlex.
Qed.

Lemma point_at_lex m n (i j : nat) :
  1 <= m -> 0 <= n -> (i < j)%nat -> Z.of_nat j <= ncomp m n - 1 ->
  lex_lt (point_at m n i) (point_at m n j).
Proof.
  intros Hm Hn Hij. induction j as [|j IH]; intros Hj; [lia|].
  destruct (decide (i = j)) as [->|Hne].
  - by apply point_at_lex_succ.
  - eapply lex_lt_trans; [apply IH; lia|].
    by apply point_at_lex_succ.
Qed.

Lemma nonneg_sum_bound (x : list Z) :
  Forall (fun v => 0 <= v) x -> Forall (fun v => 0 <= v <= zsum x) x.
Proof.
  induction 1 as [|a x Ha Hx IH]; [done|].
  pose proof (zsum_nonneg _ Hx) as Hnn.
  constructor; [simpl; lia|].
  eapply Forall_impl; [exact IH|]. simpl. intros v Hv. lia.
Qed.

(** The entries of every point of the enumeration lie in [0, n]. *)
Lemma grid_entries_bounded m n (k : nat) :
  1 <= m -> 0 <= n -> Z.of_nat k <= ncomp m n - 1 ->
  Forall (fun v => 0 <= v <= n) (point_at m n k).
Proof.
  intros Hm Hn Hk.
  destruct (state_at_spec m n k Hm Hn Hk) as ((_ & Hx & Hs) & _).
  pose proof (nonneg_sum_bound _ Hx) as Hb. by rewrite Hs in Hb.
Qed.

Lemma point_at_fits m n (k : nat) :
  1 <= m -> 0 <= n < 2 ^ 63 -> Z.of_nat k <= ncomp m n - 1 ->
  Forall (fun v => fits64 v = true) (point_at m n k).
Proof.
  intros Hm Hn Hk.
  eapply Forall_impl; [apply (grid_entries_bounded m n k); lia|].
  simpl. intros v Hv. apply fits64_spec. pose proof pow63_pos. lia.
Qed.

(** ** The code computes the states *)

Lemma nb_get_Z (a : list Z) i :
  0 <= i < Z.of_nat (length a) -> nb_get a i = Ok (a !!! Z.to_nat i).
Proof.
  intros H. rewrite <- (Z2Nat.id i) at 1 by lia.
  apply nb_get_ok, list_lookup_lookup_total_lt. lia.
Qed.

Lemma nb_set_Z (a : list Z) i v :
  0 <= i < Z.of_nat (length a) -> nb_set a i v = <[Z.to_nat i := v]> a.
Proof.
  intros H. rewrite <- (Z2Nat.id i) at 1 by lia.
  apply nb_set_ok. lia.
Qed.

Lemma np_get_Z (a : list Z) i :
  0 <= i < Z.of_nat (length a) -> np_get a i = Ok (a !!! Z.to_nat i).
Proof.
  intros H. rewrite <- (Z2Nat.id i) at 1 by lia.
  apply np_get_ok, list_lookup_lookup_total_lt. lia.
Qed.

Lemma np_set_Z (a : list Z) i v :
  0 <= i < Z.of_nat (length a) -> fits64 v = true ->
  np_set a i v = Ok (<[Z.to_nat i := v]> a).
Proof.
  intros H Hv. rewrite <- (Z2Nat.id i) at 1 by lia.
  apply np_set_ok; [lia | done].
Qed.

Lemma for_app {S : Type} (l1 l2 : list Z) (body : Z -> S -> result S) (s : S) :
  for_ (l1 ++ l2) body s = do s' <- for_ l1 body s; for_ l2 body s'.
Proof.
  revert s. induction l1 as [|i l1 IH]; intros s; simpl; [done|].
  destruct (body i s); simpl; [apply IH | done].
Qed.

Lemma next_state_length m x h : length (fst (next_state m (x, h))) = length x.
Proof. unfold next_state. cbn [fst]. by rewrite !length_insert. Qed.

(** When the entries of the next state fit 64 bits, the two wrapped
    results of a step are the exact ones. *)
Lemma next_state_no_wrap m x h :
  Z.of_nat (length x) = m -> 2 <= h <= m ->
  Forall (fun v => fits64 v = true) (fst (next_state m (x, h))) ->
  wrap64 (x !!! Z.to_nat (h - 1) - 1) = x !!! Z.to_nat (h - 1) - 1 /\
  wrap64 (<[Z.to_nat (m - 1) := x !!! Z.to_nat (h - 1) - 1]>
            (<[Z.to_nat (h - 1) := 0]> x) !!! Z.to_nat (h - 1 - 1) + 1)
  = <[Z.to_nat (m - 1) := x !!! Z.to_nat (h - 1) - 1]>
      (<[Z.to_nat (h - 1) := 0]> x) !!! Z.to_nat (h - 1 - 1) + 1.
Proof.
  intros Hlen Hh Hfit. unfold next_state in Hfit. cbn [fst] in Hfit.
  split.
  - apply wrap64_fits, fits64_spec.
    refine (Forall_lookup_1 _ _ (Z.to_nat (m - 1)) _ Hfit _).
    rewrite list_lookup_insert_ne by lia.
    apply list_lookup_insert_eq. rewrite length_insert. lia.
  - apply wrap64_fits, fits64_spec.
    refine (Forall_lookup_1 _ _ (Z.to_nat (h - 1 - 1)) _ Hfit _).
    apply list_lookup_insert_eq. rewrite !length_insert. lia.
Qed.

Lemma nb_set2_ok m (out : list (list Z)) (r j : nat) row v :
  out !! r = Some row -> (j < Z.to_nat m)%nat ->
  nb_set2 m out (Z.of_nat r) (Z.of_nat j) v = Ok (<[r := <[j := v]> row]> out).
Proof.
  intros Hr Hj. unfold nb_set2.
  rewrite nb_index_ok by done.
  rewrite nb_index_ok by (by eapply lookup_lt_Some).
  by rewrite Hr.
Qed.

Lemma copy_row_from (x row : list Z) (out : list (list Z)) (r : nat) :
  length row = length x -> (r < length out)%nat ->
  forall (d j : nat),
    (j + d = length x)%nat ->
    for_ (range (Z.of_nat j) (Z.of_nat (length x)))
         (fun j out =>
            do v <- nb_get x j;
            nb_set2 (Z.of_nat (length x)) out (Z.of_nat r) j v)
         (<[r := take j x ++ drop j row]> out)
    = Ok (<[r := x]> out).
Proof.
  intros Hrow Hr. induction d as [|d IH]; intros j Hj.
  - rewrite range_nil by lia. simpl.
    rewrite take_ge, drop_ge, app_nil_r by lia. done.
  - assert (Hlk : x !! j = Some (x !!! j))
      by (apply list_lookup_lookup_total_lt; lia).
    assert (Hlr : row !! j = Some (row !!! j))
      by (apply list_lookup_lookup_total_lt; lia).
    rewrite range_cons by lia. cbn [for_].
    rewrite (nb_get_ok _ _ _ Hlk). cbn [bind].
    rewrite (nb_set2_ok _ _ _ _ (take j x ++ drop j row))
      by (rewrite ?list_lookup_insert_eq; done || lia).
    cbn [bind]. rewrite list_insert_insert_eq.
    rewrite insert_app_r_alt by (rewrite length_take; lia).
    rewrite length_take.
    replace (j - j `min` length x)%nat with 0%nat by lia.
    rewrite (drop_S _ _ _ Hlr). cbn [insert list_insert].
    replace (take j x ++ x !!! j :: drop (S j) row)
      with (take (S j) x ++ drop (S j) row)
      by (rewrite (take_S_r _ _ _ Hlk), <- app_assoc; done).
    replace (Z.of_nat j + 1) with (Z.of_nat (S j)) by lia.
    apply IH. lia.
Qed.

Lemma copy_row_ok (x row : list Z) (out : list (list Z)) (r : nat) m :
  Z.of_nat (length x) = m -> length row = length x -> out !! r = Some row ->
  copy_row out (Z.of_nat r) x m = Ok (<[r := x]> out).
Proof.
  intros Hm Hrow Hr. unfold copy_row. subst m.
  pose proof (copy_row_from x row out r Hrow
                ltac:(by eapply lookup_lt_Some) (length x) 0%nat eq_refl) as H.
  change (take 0 x ++ drop 0 row) with row in H.
  rewrite (list_insert_id _ _ _ Hr) in H. done.
Qed.

Lemma grid_body_ok m (r : nat) x h out row :
  Z.of_nat (length x) = m -> 2 <= h <= m ->
  Forall (fun v => fits64 v = true) (fst (next_state m (x, h))) ->
  out !! r = Some row -> length row = length x ->
  grid_body m (Z.of_nat r) (x, h, out)
  = Ok (fst (next_state m (x, h)), snd (next_state m (x, h)),
        <[r := fst (next_state m (x, h))]> out).
Proof.
  intros Hlen Hh Hfit Hr Hrow.
  destruct (next_state_no_wrap m x h Hlen Hh Hfit) as [Hw1 Hw2].
  unfold grid_body, next_state. cbn [fst snd].
  rewrite nb_get_Z by lia. cbn [bind].
  rewrite (nb_set_Z x) by lia. rewrite Hw1.
  rewrite (nb_set_Z (<[Z.to_nat (h - 1) := 0]> x)) by (rewrite length_insert; lia).
  rewrite nb_get_Z by (rewrite !length_insert; lia). cbn [bind].
  rewrite Hw2.
  rewrite nb_set_Z by (rewrite !length_insert; lia).
  rewrite (copy_row_ok _ row) by (rewrite ?length_insert; done). done.
Qed.

Lemma np_empty_ok uninit L m :
  0 <= L -> 0 <= m ->
  exists out,
    np_empty uninit L m = Ok out /\
    Z.of_nat (length out) = L /\
    Forall (fun row => Z.of_nat (length row) = m) out.
Proof.
  intros HL Hm. unfold np_empty.
  replace ((L <? 0) || (m <? 0)) with false
    by (symmetry; apply orb_false_iff; lia).
  eexists. split; [done|]. split.
  - rewrite length_map, length_seq. lia.
  - apply Forall_forall. intros row Hin.
    apply list_elem_of_fmap in Hin as (i & -> & _).
    rewrite length_map, length_seq. lia.
Qed.

Lemma grid_init_ok uninit m n :
  1 <= m -> 0 <= n < 2 ^ 63 ->
  exists out0,
    grid_init uninit m n = Ok (ncomp m n, (point_at m n 0, m, out0)) /\
    Z.of_nat (length out0) = ncomp m n /\
    Forall (fun row => Z.of_nat (length row) = m) out0 /\
    out0 !! 0%nat = Some (point_at m n 0).
Proof.
  intros Hm Hn. pose proof (ncomp_pos m n Hm ltac:(lia)) as HL.
  destruct (np_empty_ok uninit (ncomp m n) m) as (out & He & Hlen & Hrows);
    [lia | lia |].
  destruct out as [|row out]; [simpl in Hlen; lia|].
  apply Forall_cons in Hrows as [Hrow Hrows'].
  assert (Hx : Z.of_nat (length (point_at m n 0)) = m).
  { unfold point_at, state_at, first_state. simpl.
    rewrite length_insert, length_replicate. lia. }
  exists (point_at m n 0 :: out).
  split; [|split; [|split]]; [|done|by constructor|done].
  unfold grid_init. rewrite num_compositions_ok. cbn [bind].
  rewrite He. cbn [bind]. unfold np_zeros.
  replace (m <? 0) with false by lia. cbn [bind].
  rewrite np_set_Z
    by (rewrite ?length_replicate; try apply fits64_spec; pose proof pow63_pos; lia).
  cbn [bind].
  change (<[Z.to_nat (m - 1) := n]> (replicate (Z.to_nat m) 0))
    with (point_at m n 0).
  change 0 with (Z.of_nat 0) at 1.
  rewrite (copy_row_ok _ row) by (done || lia). done.
Qed.

(** A sum that does not fit 64 bits stops the run at [x[m-1] = n]. *)
Lemma grid_init_overflow uninit m n :
  1 <= m -> 2 ^ 63 <= n -> grid_init uninit m n = Raise OverflowError.
Proof.
  intros Hm Hn. pose proof (ncomp_pos m n Hm ltac:(pose proof pow63_pos; lia)) as HL.
  destruct (np_empty_ok uninit (ncomp m n) m) as (out & He & _); [lia | lia |].
  unfold grid_init. rewrite num_compositions_ok. cbn [bind].
  rewrite He. cbn [bind]. unfold np_zeros.
  replace (m <? 0) with false by lia. cbn [bind].
  rewrite <- (Z2Nat.id (m - 1)) by lia.
  rewrite np_set_overflow; [done | rewrite length_replicate; lia |].
  apply not_true_is_false. rewrite fits64_spec. lia.
Qed.

Lemma grid_loop m n out0 :
  1 <= m -> 0 <= n < 2 ^ 63 ->
  Z.of_nat (length out0) = ncomp m n ->
  Forall (fun row => Z.of_nat (length row) = m) out0 ->
  out0 !! 0%nat = Some (point_at m n 0) ->
  forall k : nat,
    Z.of_nat k <= ncomp m n - 1 ->
    exists out,
      for_ (range 1 (1 + Z.of_nat k)) (grid_body m) (point_at m n 0, m, out0)
      = Ok (fst (state_at m n k), snd (state_at m n k), out) /\
      length out = length out0 /\
      Forall (fun row => Z.of_nat (length row) = m) out /\
      forall j, (j <= k)%nat -> out !! j = Some (point_at m n j).
Proof.
  intros Hm Hn Hlen Hrows H0. induction k as [|k IH]; intros Hk.
  - exists out0. rewrite range_nil by lia.
    split; [done|]. split; [done|]. split; [done|].
    intros j Hj. by replace j with 0%nat by lia.
  - destruct IH as (out & Hrun & Hlen' & Hrows' & Hpts); [lia|].
    destruct (state_at_spec m n k Hm ltac:(lia) ltac:(lia))
      as ((Hxl & _) & _ & Hh1 & Hh2).
    specialize (Hh2 ltac:(lia)). unfold point_at in Hxl.
    pose proof (point_at_fits m n (S k) Hm Hn Hk) as Hfit.
    unfold point_at in Hfit. rewrite state_at_succ in Hfit.
    pose proof (state_at_succ m n k) as Hsucc.
    destruct (state_at m n k) as [x h]. cbn [fst snd] in *.
    replace (1 + Z.of_nat (S k)) with (1 + Z.of_nat k + 1) by lia.
    rewrite range_snoc, for_app, Hrun by lia. cbn [bind for_].
    assert (Hrow : is_Some (out !! S k)) by (apply lookup_lt_is_Some_2; lia).
    destruct Hrow as [row Hrow].
    pose proof (Forall_lookup_1 _ _ _ _ Hrows' Hrow) as Hrl. cbn beta in Hrl.
    replace (1 + Z.of_nat k) with (Z.of_nat (S k)) by lia.
    rewrite (grid_body_ok m (S k) _ _ _ row); [|done|lia|done|done|lia].
    cbn [bind]. rewrite <- Hsucc.
    eexists. split; [done|]. split; [by rewrite length_insert|]. split.
    + apply Forall_insert; [done|].
      destruct (state_at_spec m n (S k) Hm ltac:(lia) Hk) as ((Hxl' & _) & _).
      done.
    + intros j Hj. destruct (decide (j = S k)) as [->|Hne].
      * rewrite list_lookup_insert_eq by lia. done.
      * rewrite list_lookup_insert_ne by done. apply Hpts. lia.
Qed.

(** The batch enumerator returns the points of the enumeration, one row
    each, whatever the fresh table held. *)
Lemma simplex_grid_points uninit m n :
  1 <= m -> 0 <= n < 2 ^ 63 ->
  simplex_grid uninit m n
  = Ok (map (point_at m n) (seq 0 (Z.to_nat (ncomp m n)))).
Proof.
  intros Hm Hn. pose proof (ncomp_pos m n Hm ltac:(lia)) as HL.
  destruct (grid_init_ok uninit m n Hm Hn) as (out0 & Hinit & Hlen & Hrows & H0).
  destruct (grid_loop m n out0 Hm Hn Hlen Hrows H0 (Z.to_nat (ncomp m n - 1)) ltac:(lia))
    as (out & Hrun & Hlen' & _ & Hpts).
  unfold simplex_grid. rewrite Hinit. cbn [bind].
  replace (1 + Z.of_nat (Z.to_nat (ncomp m n - 1))) with (ncomp m n) in Hrun by lia.
  rewrite Hrun. cbn [bind]. f_equal.
  apply list_eq. intros i. rewrite list_lookup_fmap.
  destruct (decide (i < Z.to_nat (ncomp m n))%nat) as [Hi|Hi].
  - rewrite Hpts by lia.
    rewrite (proj2 (lookup_seq 0 _ i i)) by (split; [done | lia]). done.
  - rewrite lookup_ge_None_2 by lia.
    rewrite (lookup_ge_None_2 (seq _ _)) by (rewrite length_seq; lia). done.
Qed.

(** ** The generator *)

Lemma simplex_grid_overflow uninit m n :
  1 <= m -> 2 ^ 63 <= n -> simplex_grid uninit m n = Raise OverflowError.
Proof.
  intros Hm Hn. unfold simplex_grid. by rewrite grid_init_overflow.
Qed.

Lemma grid_run_overflow uninit m n k :
  1 <= m -> 2 ^ 63 <= n -> grid_run uninit m n k = Raise OverflowError.
Proof.
  intros Hm Hn. unfold grid_run. by rewrite grid_init_overflow.
Qed.

(** ** The generator *)

Lemma insert_end {A : Type} (s : list A) (a b : A) :
  <[length s := b]> (s ++ [a]) = s ++ [b].
Proof. rewrite insert_app_r_alt by lia. by rewrite Nat.sub_diag. Qed.

Lemma lookup_end {A : Type} (s : list A) (a : A) : (s ++ [a]) !! length s = Some a.
Proof. by apply list_lookup_middle. Qed.

Lemma arr_get_end (s : store) (a : list Z) i :
  0 <= i < Z.of_nat (length a) ->
  arr_get (length s) i (s ++ [a]) = (Ok (a !!! Z.to_nat i), s ++ [a]).
Proof.
  intros H. unfold arr_get. rewrite lookup_end, np_get_Z by done. done.
Qed.

Lemma arr_set_end (s : store) (a : list Z) i v :
  0 <= i < Z.of_nat (length a) -> fits64 v = true ->
  arr_set (length s) i v (s ++ [a]) = (Ok tt, s ++ [<[Z.to_nat i := v]> a]).
Proof.
  intros H Hv. unfold arr_set. rewrite lookup_end, np_set_Z by done.
  by rewrite insert_end.
Qed.

(** The first [next()] allocates the working array and yields it. *)
Lemma gen_next_new self (s : store) :
  1 <= sg_m self -> fits64 (sg_n self) = true ->
  gen_next (generate self) s
  = (Ok (length s),
     {| gen_self := self;
        gen_pc_of := GenSuspended (sg_m self) (length s) (sg_m self) |},
     s ++ [point_at (sg_m self) (sg_n self) 0]).
Proof.
  intros Hm Hn. unfold gen_next, generate, gen_start, mbind, zeros, np_zeros.
  cbn [gen_pc_of gen_self].
  replace (sg_m self <? 0) with false by lia.
  rewrite arr_set_end by (rewrite ?length_replicate; done || lia). done.
Qed.

(** With a sum that does not fit 64 bits the first [next()] fails at
    [x[m-1] = n], after the array was allocated. *)
Lemma gen_next_new_overflow self (s : store) :
  1 <= sg_m self -> fits64 (sg_n self) = false ->
  gen_next (generate self) s
  = (Raise OverflowError,
     {| gen_self := self; gen_pc_of := GenDone |},
     s ++ [replicate (Z.to_nat (sg_m self)) 0]).
Proof.
  intros Hm Hn. unfold gen_next, generate, gen_start, mbind, zeros, np_zeros.
  cbn [gen_pc_of gen_self].
  replace (sg_m self <? 0) with false by lia.
  unfold arr_set. rewrite lookup_end.
  rewrite <- (Z2Nat.id (sg_m self - 1)) by lia.
  rewrite np_set_overflow by (rewrite ?length_replicate; done || lia). done.
Qed.

(** A later [next()] with the pointer right of position 1 updates the
    array in place and yields the same reference. *)
Lemma gen_next_suspended self m (s : store) (a : list Z) h :
  Z.of_nat (length a) = m -> 2 <= h <= m ->
  Forall (fun v => fits64 v = true) (fst (next_state m (a, h))) ->
  gen_next {| gen_self := self; gen_pc_of := GenSuspended m (length s) h |}
           (s ++ [a])
  = (Ok (length s),
     {| gen_self := self;
        gen_pc_of := GenSuspended m (length s) (snd (next_state m (a, h))) |},
     s ++ [fst (next_state m (a, h))]).
Proof.
  intros Hlen Hh Hfit.
  destruct (next_state_no_wrap m a h Hlen Hh Hfit) as [Hw1 Hw2].
  unfold gen_next, gen_resume, mbind, next_state.
  cbn [gen_pc_of gen_self fst snd].
  replace (h - 1 =? 0) with false by lia.
  rewrite arr_get_end by lia.
  rewrite arr_set_end by (done || lia).
  rewrite arr_set_end by (rewrite ?length_insert; try apply fits64_wrap64; lia).
  rewrite Hw1.
  rewrite arr_get_end by (rewrite !length_insert; lia).
  rewrite arr_set_end by (rewrite ?length_insert; try apply fits64_wrap64; lia).
  rewrite Hw2.
  done.
Qed.

(** With the pointer at position 1 the generator returns. *)
Lemma gen_next_exhausted self m x (s : store) :
  gen_next {| gen_self := self; gen_pc_of := GenSuspended m x 1 |} s
  = (Raise StopIteration, {| gen_self := self; gen_pc_of := GenDone |}, s).
Proof. done. Qed.

Lemma gen_collect_succ k g (s : store) :
  gen_collect (S k) g s
  = match gen_next g s with
    | (Ok x, g', s') =>
        let '(ys, r, g'', s'') := gen_collect k g' s' in
        ((x, default [] (s' !! x)) :: ys, r, g'', s'')
    | (Raise e, g', s') => ([], Raise e, g', s')
    end.
Proof. done. Qed.

Section Generator.

Variables (self : SimplexGrid) (s : store).
Hypothesis Hm : 1 <= sg_m self.
Hypothesis Hn : 0 <= sg_n self < 2 ^ 63.

Lemma gen_next_first :
  gen_next (generate self) s
  = (Ok (length s), suspended_at self (length s) 0, s ++ [point_at (sg_m self) (sg_n self) 0]).
Proof using Hm Hn.
  rewrite gen_next_new; [done | done |].
  apply fits64_spec. pose proof pow63_pos. lia.
Qed.

Lemma gen_next_step (i : nat) :
  Z.of_nat (S i) <= ncomp (sg_m self) (sg_n self) - 1 ->
  gen_next (suspended_at self (length s) i) (s ++ [point_at (sg_m self) (sg_n self) i])
  = (Ok (length s), suspended_at self (length s) (S i),
     s ++ [point_at (sg_m self) (sg_n self) (S i)]).
Proof.
  intros Hi. unfold suspended_at, point_at.
  destruct (state_at_spec (sg_m self) (sg_n self) i Hm ltac:(lia) ltac:(lia))
    as ((Hxl & _) & _ & Hh1 & Hh2).
  specialize (Hh2 ltac:(lia)). unfold point_at in Hxl.
  pose proof (point_at_fits (sg_m self) (sg_n self) (S i) Hm Hn Hi) as Hfit.
  unfold point_at in Hfit. rewrite state_at_succ in Hfit.
  rewrite state_at_succ.
  destruct (state_at (sg_m self) (sg_n self) i) as [x h]. cbn [fst snd] in *.
  by rewrite gen_next_suspended by (done || lia).
Qed.

Lemma gen_collect_from (d : nat) : forall i : nat,
  Z.of_nat (i + d) <= ncomp (sg_m self) (sg_n self) - 1 ->
  gen_collect d (suspended_at self (length s) i) (s ++ [point_at (sg_m self) (sg_n self) i])
  = (map (fun j => (length s, point_at (sg_m self) (sg_n self) j)) (seq (S i) d),
     Ok tt, suspended_at self (length s) (i + d),
     s ++ [point_at (sg_m self) (sg_n self) (i + d)]).
Proof.
  induction d as [|d IH]; intros i Hi.
  - by rewrite Nat.add_0_r.
  - rewrite gen_collect_succ, gen_next_step by lia.
    rewrite IH by lia. rewrite lookup_end.
    replace (S i + d)%nat with (i + S d)%nat by lia. done.
Qed.

(** Collecting up to and including the call after the last point. *)
Lemma gen_collect_to_end (d : nat) : forall i : nat,
  snd (state_at (sg_m self) (sg_n self) (i + d)) = 1 ->
  Z.of_nat (i + d) <= ncomp (sg_m self) (sg_n self) - 1 ->
  gen_collect (S d) (suspended_at self (length s) i) (s ++ [point_at (sg_m self) (sg_n self) i])
  = (map (fun j => (length s, point_at (sg_m self) (sg_n self) j)) (seq (S i) d),
     Raise StopIteration,
     {| gen_self := self; gen_pc_of := GenDone |},
     s ++ [point_at (sg_m self) (sg_n self) (i + d)]).
Proof.
  induction d as [|d IH]; intros i Hlast Hi.
  - rewrite Nat.add_0_r in *. rewrite gen_collect_succ.
    unfold suspended_at. rewrite Hlast.
    by rewrite gen_next_exhausted.
  - rewrite gen_collect_succ, gen_next_step by lia.
    rewrite <- Nat.add_succ_comm in *.
    rewrite (IH (S i)) by done. by rewrite lookup_end.
Qed.

Lemma gen_skip_from (l : list Z) : forall i : nat,
  Z.of_nat (i + length l) <= ncomp (sg_m self) (sg_n self) - 1 ->
  gen_skip l (suspended_at self (length s) i) (s ++ [point_at (sg_m self) (sg_n self) i])
  = (Ok tt, suspended_at self (length s) (i + length l),
     s ++ [point_at (sg_m self) (sg_n self) (i + length l)]).
Proof.
  induction l as [|j l IH]; intros i Hi.
  - simpl. by rewrite Nat.add_0_r.
  - cbn [gen_skip]. rewrite gen_next_step by (simpl in Hi; lia).
    rewrite IH by (simpl in Hi; lia).
    replace (S i + length l)%nat with (i + length (j :: l))%nat by (simpl; lia).
    done.
Qed.

(** The first [k + 1] calls of [next()], for [k] up to the last index:
    every call yields the one working array, which then holds the
    [k]-th point. *)
Lemma gen_collect_prefix (k : nat) :
  Z.of_nat k <= ncomp (sg_m self) (sg_n self) - 1 ->
  gen_collect (S k) (generate self) s
  = (map (fun j => (length s, point_at (sg_m self) (sg_n self) j)) (seq 0 (S k)),
     Ok tt, suspended_at self (length s) k, s ++ [point_at (sg_m self) (sg_n self) k]).
Proof.
  intros Hk. rewrite gen_collect_succ, gen_next_first.
  rewrite gen_collect_from by lia. by rewrite lookup_end.
Qed.

(** Away from the case [n = 0], [m >= 2], the generator yields the
    [ncomp (sg_m self) (sg_n self)] points and the next call raises StopIteration. *)
Lemma gen_collect_all :
  1 <= sg_n self \/ sg_m self = 1 ->
  gen_collect (S (Z.to_nat (ncomp (sg_m self) (sg_n self)))) (generate self) s
  = (map (fun j => (length s, point_at (sg_m self) (sg_n self) j))
         (seq 0 (Z.to_nat (ncomp (sg_m self) (sg_n self)))),
     Raise StopIteration,
     {| gen_self := self; gen_pc_of := GenDone |},
     s ++ [point_at (sg_m self) (sg_n self) (Z.to_nat (ncomp (sg_m self) (sg_n self) - 1))]).
Proof.
  intros Hcase.
  pose proof (ncomp_pos (sg_m self) (sg_n self) Hm ltac:(lia)) as HL.
  destruct (state_at_last (sg_m self) (sg_n self) Hm ltac:(lia)) as [_ Hlast].
  specialize (Hlast Hcase).
  replace (Z.to_nat (ncomp (sg_m self) (sg_n self)))
    with (S (Z.to_nat (ncomp (sg_m self) (sg_n self) - 1))) by lia.
  rewrite gen_collect_succ, gen_next_first.
  rewrite (gen_collect_to_end (Z.to_nat (ncomp (sg_m self) (sg_n self) - 1)) 0 Hlast) by lia.
  by rewrite lookup_end.
Qed.

End Generator.

Lemma gen_skip_cons j l g (s : store) :
  gen_skip (j :: l) g s
  = match gen_next g s with
    | (Ok _, g', s') => gen_skip l g' s'
    | (Raise e, g', s') => (Raise e, g', s')
    end.
Proof. done. Qed.

Lemma SimplexGrid_init_ok m n :
  SimplexGrid_init m n = Ok {| sg_m := m; sg_n := n; sg_size := ncomp m n |}.
Proof. done. Qed.

(** Indexed access inside the range walks the generator to the index. *)
Lemma getitem_in_range m n idx (s : store) :
  1 <= m -> 0 <= n < 2 ^ 63 -> 0 <= idx <= ncomp m n - 1 ->
  let self := {| sg_m := m; sg_n := n; sg_size := ncomp m n |} in
  getitem self idx s
  = (Ok (length s), self, s ++ [point_at m n (Z.to_nat idx)]).
Proof.
  intros Hm Hn Hidx self. unfold getitem.
  replace ((0 <=? idx) && (idx <? sg_size self)) with true
    by (symmetry; apply andb_true_iff; simpl; lia).
  cbn [negb].
  destruct (decide (idx = 0)) as [->|Hne].
  - rewrite range_nil by lia. cbn [gen_skip].
    rewrite gen_next_first by done. done.
  - rewrite range_cons, gen_skip_cons by lia.
    rewrite gen_next_first by done.
    rewrite (gen_skip_from self s Hm Hn (range (0 + 1) idx) 0)
      by (rewrite length_range; simpl; lia).
    rewrite length_range. cbn [Nat.add].
    replace (Z.to_nat (idx - (0 + 1))) with (Z.to_nat (idx - 1)) by lia.
    rewrite (gen_next_step self s Hm Hn) by (simpl; lia).
    replace (S (Z.to_nat (idx - 1))) with (Z.to_nat idx) by lia. done.
Qed.

Lemma getitem_out_of_range self idx (s : store) :
  ~ (0 <= idx <= sg_size self - 1) ->
  getitem self idx s = (Raise IndexError, self, s).
Proof.
  intros H. unfold getitem.
  replace ((0 <=? idx) && (idx <? sg_size self)) with false; [done|].
  symmetry. apply andb_false_iff. lia.
Qed.

Lemma grid_rows_lookup m n (L i : nat) row :
  map (point_at m n) (seq 0 L) !! i = Some row <->
  (i < L)%nat /\ row = point_at m n i.
Proof.
  rewrite list_lookup_fmap. split.
  - intros H. destruct (seq 0 L !! i) as [j|] eqn:Hj; [|done].
    apply lookup_seq in Hj as [-> Hi]. simpl in H. split; [done | congruence].
  - intros [Hi ->].
    by rewrite (proj2 (lookup_seq 0 L i i)) by (split; [done | lia]).
Qed.

Lemma grid_run_ok uninit m n (k : nat) :
  1 <= m -> 0 <= n < 2 ^ 63 -> Z.of_nat k <= ncomp m n - 1 ->
  exists out,
    grid_run uninit m n (Z.of_nat k)
    = Ok (fst (state_at m n k), snd (state_at m n k), out) /\
    Z.of_nat (length out) = ncomp m n /\
    Forall (fun row => Z.of_nat (length row) = m) out.
Proof.
  intros Hm Hn Hk.
  destruct (grid_init_ok uninit m n Hm Hn) as (out0 & Hinit & Hlen & Hrows & H0).
  destruct (grid_loop m n out0 Hm Hn Hlen Hrows H0 k Hk)
    as (out & Hrun & Hlen' & Hrows' & _).
  exists out. unfold grid_run. rewrite Hinit. cbn [bind].
  split; [done|]. split; [lia | done].
Qed.

(** * The claims *)

(** C1. For every m >= 1 and n >= 0 the rows returned by
    [simplex_grid m n] are strictly increasing in lexicographic order
    (coordinates compared left to right): an earlier row is below every
    later one, so no vector occurs twice.  This holds of whatever table
    is returned; one is returned whenever n fits the 64-bit working
    vector. *)
Theorem simplex_grid_strictly_increasing uninit m n :
  1 <= m -> 0 <= n ->
  (n < 2 ^ 63 -> exists out, simplex_grid uninit m n = Ok out) /\
  (forall out,
      simplex_grid uninit m n = Ok out ->
      (forall (i j : nat) ri rj,
          (i < j)%nat -> out !! i = Some ri -> out !! j = Some rj ->
          lex_lt ri rj) /\
      NoDup out).
Proof.
  intros Hm Hn. split.
  - intros Hfit. eexists. apply simplex_grid_points; lia.
  - intros out Hout.
    destruct (Z.lt_ge_cases n (2 ^ 63)) as [Hfit|Hbig];
      [|by rewrite simplex_grid_overflow in Hout].
    rewrite simplex_grid_points in Hout by lia. injection Hout as <-.
    pose proof (ncomp_pos m n Hm Hn) as HL.
    assert (Hlt : forall (i j : nat) ri rj,
               (i < j)%nat ->
               map (point_at m n) (seq 0 (Z.to_nat (ncomp m n))) !! i = Some ri ->
               map (point_at m n) (seq 0 (Z.to_nat (ncomp m n))) !! j = Some rj ->
               lex_lt ri rj).
    { intros i j ri rj Hij Hi Hj.
      apply grid_rows_lookup in Hi as [_ ->].
      apply grid_rows_lookup in Hj as [Hj ->].
      apply point_at_lex; lia. }
    split; [done|].
    apply NoDup_alt. intros i j x Hi Hj.
    destruct (Nat.lt_trichotomy i j) as [Hij|[Hij|Hij]]; [|done|].
    + destruct (lex_lt_irrefl x). by eapply Hlt.
    + destruct (lex_lt_irrefl x). by eapply Hlt.
Qed.

Lemma simplex_grid_strictly_increasing_witness :
  (4 < 2 ^ 63 -> exists out, simplex_grid (fun _ _ => 0) 3 4 = Ok out) /\
  (forall out,
      simplex_grid (fun _ _ => 0) 3 4 = Ok out ->
      (forall (i j : nat) ri rj,
          (i < j)%nat -> out !! i = Some ri -> out !! j = Some rj ->
          lex_lt ri rj) /\
      NoDup out).
Proof. apply (simplex_grid_strictly_increasing (fun _ _ => 0) 3 4); lia. Defined.

(** C2, as the code has it. For every m >= 1 and 0 <= n < 2^63,
    [simplex_grid m n] returns exactly [num_compositions m n] =
    C(n+m-1, m-1) rows, and every row has length m, nonnegative entries
    and sum n. *)
Theorem simplex_grid_rows uninit m n :
  1 <= m -> 0 <= n < 2 ^ 63 ->
  exists out,
    simplex_grid uninit m n = Ok out /\
    num_compositions m n = Ok (Z.of_nat (length out)) /\
    length out = binom (Z.to_nat (n + m - 1)) (Z.to_nat (m - 1)) /\
    Forall (is_composition m n) out.
Proof.
  intros Hm Hn. eexists. split; [by apply simplex_grid_points|].
  pose proof (ncomp_pos m n Hm ltac:(lia)) as HL.
  rewrite length_map, length_seq. split; [|split].
  - rewrite num_compositions_ok. f_equal. lia.
  - rewrite ncomp_binom by lia. lia.
  - apply Forall_forall. intros row Hin.
    apply list_elem_of_lookup in Hin as [i Hi].
    apply grid_rows_lookup in Hi as [Hi ->].
    apply state_at_spec; lia.
Qed.

Lemma simplex_grid_rows_witness :
  exists out,
    simplex_grid (fun _ _ => 0) 3 4 = Ok out /\
    num_compositions 3 4 = Ok (Z.of_nat (length out)) /\
    length out = binom (Z.to_nat (4 + 3 - 1)) (Z.to_nat (3 - 1)) /\
    Forall (is_composition 3 4) out.
Proof. apply (simplex_grid_rows (fun _ _ => 0) 3 4); [lia | split; [lia | reflexivity]]. Defined.

(** C2 as stated fails at m = 1, n = 2^63: there is one composition,
    but storing n into the 64-bit working vector raises OverflowError
    and no table is returned. *)
Lemma simplex_grid_rows_overflow :
  num_compositions 1 (2 ^ 63) = Ok 1 /\
  simplex_grid (fun _ _ => 0) 1 (2 ^ 63) = Raise OverflowError.
Proof. split; reflexivity. Qed.

(** C3, as the code has it. For every m >= 1 and 0 <= n < 2^63 with
    m * L < 2^63, where L = [num_compositions m n] (the table has fewer
    than 2^63 cells), and every index i in [0, L-1], [simplex_index]
    applied to row i of [simplex_grid m n] returns i. *)
Theorem simplex_index_of_row uninit m n i :
  1 <= m -> 0 <= n < 2 ^ 63 ->
  (exists L, num_compositions m n = Ok L /\ m * L < 2 ^ 63 /\ 0 <= i <= L - 1) ->
  exists out row,
    simplex_grid uninit m n = Ok out /\
    out !! Z.to_nat i = Some row /\
    simplex_index row m n = Ok i.
Proof.
  intros Hm Hn (L & HL & Hcells & Hi). rewrite num_compositions_ok in HL.
  injection HL as <-.
  eexists _, (point_at m n (Z.to_nat i)).
  split; [by apply simplex_grid_points|]. split.
  - apply grid_rows_lookup. split; [lia | done].
  - destruct (state_at_spec m n (Z.to_nat i) Hm ltac:(lia) ltac:(lia))
      as (Hc & Hr & _).
    rewrite simplex_index_rank, Hr by done. f_equal. lia.
Qed.

Lemma simplex_index_of_row_witness :
  exists out row,
    simplex_grid (fun _ _ => 0) 3 4 = Ok out /\
    out !! Z.to_nat 6 = Some row /\
    simplex_index row 3 4 = Ok 6.
Proof.
  apply (simplex_index_of_row (fun _ _ => 0) 3 4 6);
    [lia | split; [lia | reflexivity] |].
  exists 15. split; [reflexivity|]. split; [reflexivity | lia].
Defined.

(** C3 as stated fails. At m = 3, n = 2^63 - 1 row 0 is
    (0, 0, 2^63 - 1) and [simplex_index] returns 2^125 - 2^62 for it,
    not 0: [decumsum[0] - 1 + m - 1] wraps to -2^63 inside
    [num_compositions].  At m = 1, n = 2^63 there is no row 0 at all. *)
Lemma simplex_index_of_row_wraps :
  (exists out,
      simplex_grid (fun _ _ => 0) 3 (2 ^ 63 - 1) = Ok out /\
      out !! 0%nat = Some [0; 0; 2 ^ 63 - 1]) /\
  simplex_index [0; 0; 2 ^ 63 - 1] 3 (2 ^ 63 - 1) = Ok (2 ^ 125 - 2 ^ 62) /\
  num_compositions 1 (2 ^ 63) = Ok 1 /\
  simplex_grid (fun _ _ => 0) 1 (2 ^ 63) = Raise OverflowError.
Proof.
  split; [|split; [reflexivity | split; reflexivity]].
  eexists. split; [apply simplex_grid_points; [lia | split; [lia | reflexivity]]|].
  apply grid_rows_lookup. split; [|reflexivity].
  pose proof (ncomp_pos 3 (2 ^ 63 - 1) ltac:(lia) ltac:(lia)). lia.
Qed.

(** C4, as the code has it. For every m >= 1, n >= 0 with
    m * [num_compositions m n] < 2^63 and every composition x of n into
    m parts (length m, nonnegative entries, sum n), the iterative ranker
    [simplex_index] and the recursive ranker [simplex_index_rec] return
    the same value. *)
Theorem simplex_index_agrees_with_rec x m n :
  1 <= m -> 0 <= n -> is_composition m n x ->
  (exists L, num_compositions m n = Ok L /\ m * L < 2 ^ 63) ->
  exists idx,
    simplex_index x m n = Ok idx /\ simplex_index_rec x m n = Ok idx.
Proof.
  intros Hm Hn Hc (L & HL & Hcells). rewrite num_compositions_ok in HL.
  injection HL as <-. exists (rank x n). split.
  - by apply simplex_index_rank.
  - apply simplex_index_rec_rank; [apply Hc | done].
Qed.

Lemma simplex_index_agrees_with_rec_witness :
  exists idx,
    simplex_index [1; 1; 2] 3 4 = Ok idx /\
    simplex_index_rec [1; 1; 2] 3 4 = Ok idx.
Proof.
  apply (simplex_index_agrees_with_rec [1; 1; 2] 3 4); [lia | lia | |].
  - split; [reflexivity|]. split; [|reflexivity].
    repeat constructor; lia.
  - exists 15. split; reflexivity.
Defined.

(** C4 as stated fails at the composition (0, 0, 2^63 - 1) of
    n = 2^63 - 1 into m = 3 parts: [simplex_index] returns
    2^125 - 2^62, [simplex_index_rec] returns 0. *)
Lemma simplex_index_disagrees_with_rec :
  is_composition 3 (2 ^ 63 - 1) [0; 0; 2 ^ 63 - 1] /\
  simplex_index [0; 0; 2 ^ 63 - 1] 3 (2 ^ 63 - 1) = Ok (2 ^ 125 - 2 ^ 62) /\
  simplex_index_rec [0; 0; 2 ^ 63 - 1] 3 (2 ^ 63 - 1) = Ok 0.
Proof.
  split; [|split; reflexivity].
  split; [reflexivity|]. split; [|reflexivity].
  repeat constructor; lia.
Qed.

(** C6, as the code has it. For every m >= 1 and 0 <= n < 2^63 the
    enumeration starts at the vector with all weight on the last
    coordinate and ends at the vector with all weight on the first: row
    0 of [simplex_grid m n] is (0, ..., 0, n) and row L-1 is
    (n, 0, ..., 0), with L = [num_compositions m n]. *)
Theorem simplex_grid_first_last uninit m n :
  1 <= m -> 0 <= n < 2 ^ 63 ->
  exists out L,
    simplex_grid uninit m n = Ok out /\
    num_compositions m n = Ok L /\
    out !! 0%nat = Some (replicate (Z.to_nat (m - 1)) 0 ++ [n]) /\
    out !! Z.to_nat (L - 1) = Some (n :: replicate (Z.to_nat (m - 1)) 0).
Proof.
  intros Hm Hn. eexists _, (ncomp m n).
  pose proof (ncomp_pos m n Hm ltac:(lia)) as HL.
  split; [by apply simplex_grid_points|]. split; [done|]. split.
  - apply grid_rows_lookup. split; [lia|].
    unfold point_at, state_at. simpl Nat.iter. by rewrite first_state_eq.
  - apply grid_rows_lookup. split; [lia|].
    symmetry. apply state_at_last; lia.
Qed.

Lemma simplex_grid_first_last_witness :
  exists out L,
    simplex_grid (fun _ _ => 0) 3 4 = Ok out /\
    num_compositions 3 4 = Ok L /\
    out !! 0%nat = Some (replicate (Z.to_nat (3 - 1)) 0 ++ [4]) /\
    out !! Z.to_nat (L - 1) = Some (4 :: replicate (Z.to_nat (3 - 1)) 0).
Proof.
  apply (simplex_grid_first_last (fun _ _ => 0) 3 4);
    [lia | split; [lia | reflexivity]].
Defined.

(** C6 as stated fails at m = 1, n = 2^63: the call raises
    OverflowError at [x[m-1] = n], so there is no row 0. *)
Lemma simplex_grid_first_last_overflow :
  simplex_grid (fun _ _ => 0) 1 (2 ^ 63) = Raise OverflowError.
Proof. reflexivity. Qed.

(** C10. In [simplex_grid m n] with m >= 1 and n >= 0 every array access
    is in bounds: whenever the run is on entry to iteration i of the
    main loop, for i in [1, L-1], the working vector has length m and
    the pointer after the decrement, h - 1, lies in [1, m-1]; so
    [x[h]], [x[h-1]] and [x[m-1]] index inside the vector, the exhausted
    state h = 0 is not reached, and the iteration ends without an
    exception.  The run does reach every such iteration when n fits the
    64-bit working vector. *)
Theorem simplex_grid_in_bounds uninit m n i :
  1 <= m -> 0 <= n ->
  (exists L, num_compositions m n = Ok L /\ 1 <= i <= L - 1) ->
  (n < 2 ^ 63 -> exists st, grid_run uninit m n (i - 1) = Ok st) /\
  (forall x h out,
      grid_run uninit m n (i - 1) = Ok (x, h, out) ->
      Z.of_nat (length x) = m /\
      1 <= h - 1 <= m - 1 /\
      0 <= h - 1 - 1 < m /\
      0 <= m - 1 < m /\
      exists st, grid_body m i (x, h, out) = Ok st).
Proof.
  intros Hm Hn (L & HL & Hi). rewrite num_compositions_ok in HL.
  injection HL as <-.
  destruct (Z.lt_ge_cases n (2 ^ 63)) as [Hfit|Hbig]; cycle 1.
  { split; [lia|]. intros x h out Hrun.
    by rewrite grid_run_overflow in Hrun. }
  destruct (grid_run_ok uninit m n (Z.to_nat (i - 1)) Hm ltac:(lia) ltac:(lia))
    as (out & Hrun & Hlen & Hrows).
  destruct (state_at_spec m n (Z.to_nat (i - 1)) Hm Hn ltac:(lia))
    as ((Hxl & _) & _ & Hh1 & Hh2).
  specialize (Hh2 ltac:(lia)). unfold point_at in Hxl.
  pose proof (point_at_fits m n (Z.to_nat i) Hm ltac:(lia) ltac:(lia)) as Hfits.
  unfold point_at in Hfits.
  replace (Z.to_nat i) with (S (Z.to_nat (i - 1))) in Hfits by lia.
  rewrite state_at_succ in Hfits.
  rewrite Z2Nat.id in Hrun by lia.
  destruct (state_at m n (Z.to_nat (i - 1))) as [x h]. cbn [fst snd] in *.
  split; [intros _; by eexists|].
  intros x' h' out' Hrun'. rewrite Hrun in Hrun'.
  injection Hrun' as <- <- <-.
  split; [done|]. split; [lia|]. split; [lia|]. split; [lia|].
  assert (Hrow : is_Some (out !! Z.to_nat i)) by (apply lookup_lt_is_Some_2; lia).
  destruct Hrow as [row Hrow].
  pose proof (Forall_lookup_1 _ _ _ _ Hrows Hrow) as Hrl. cbn beta in Hrl.
  eexists. rewrite <- (Z2Nat.id i) at 1 by lia.
  apply (grid_body_ok m (Z.to_nat i) x h out row); [done | lia | done | done | lia].
Qed.

Lemma simplex_grid_in_bounds_witness :
  (4 < 2 ^ 63 -> exists st, grid_run (fun _ _ => 0) 3 4 (5 - 1) = Ok st) /\
  (forall x h out,
      grid_run (fun _ _ => 0) 3 4 (5 - 1) = Ok (x, h, out) ->
      Z.of_nat (length x) = 3 /\
      1 <= h - 1 <= 3 - 1 /\
      0 <= h - 1 - 1 < 3 /\
      0 <= 3 - 1 < 3 /\
      exists st, grid_body 3 5 (x, h, out) = Ok st).
Proof.
  apply (simplex_grid_in_bounds (fun _ _ => 0) 3 4 5); [lia | lia |].
  exists 15. split; [reflexivity | lia].
Defined.

(** C7, as the code has it. For every m >= 1 and 0 <= n < 2^63,
    indexed access on the facade [SimplexGrid(m, n)] raises IndexError
    exactly when the rank is not in [0, size-1]; for a rank in that
    range it returns a vector equal to row rank of [simplex_grid m n];
    in both cases the facade (m, n, size) is what it was. *)
Theorem getitem_spec uninit m n self idx (s : store) :
  1 <= m -> 0 <= n < 2 ^ 63 -> SimplexGrid_init m n = Ok self ->
  exists out,
    simplex_grid uninit m n = Ok out /\
    sg_size self = Z.of_nat (length out) /\
    (~ (0 <= idx <= sg_size self - 1) ->
     getitem self idx s = (Raise IndexError, self, s)) /\
    (0 <= idx <= sg_size self - 1 ->
     exists x row s',
       getitem self idx s = (Ok x, self, s') /\
       out !! Z.to_nat idx = Some row /\
       s' !! x = Some row /\
       s' = s ++ [row]).
Proof.
  intros Hm Hn Hself. rewrite SimplexGrid_init_ok in Hself.
  injection Hself as <-. cbn [sg_size].
  pose proof (ncomp_pos m n Hm ltac:(lia)) as HL.
  eexists. split; [by apply simplex_grid_points|].
  rewrite length_map, length_seq. split; [lia|]. split.
  - apply (getitem_out_of_range {| sg_m := m; sg_n := n; sg_size := ncomp m n |}).
  - intros Hidx.
    exists (length s), (point_at m n (Z.to_nat idx)), (s ++ [point_at m n (Z.to_nat idx)]).
    split; [by apply getitem_in_range|]. split; [|split; [|done]].
    + apply grid_rows_lookup. split; [lia | done].
    + apply lookup_end.
Qed.

Lemma getitem_spec_witness :
  exists out,
    simplex_grid (fun _ _ => 0) 3 4 = Ok out /\
    sg_size {| sg_m := 3; sg_n := 4; sg_size := 15 |} = Z.of_nat (length out) /\
    (~ (0 <= 2 <= sg_size {| sg_m := 3; sg_n := 4; sg_size := 15 |} - 1) ->
     getitem {| sg_m := 3; sg_n := 4; sg_size := 15 |} 2 []
     = (Raise IndexError, {| sg_m := 3; sg_n := 4; sg_size := 15 |}, [])) /\
    (0 <= 2 <= sg_size {| sg_m := 3; sg_n := 4; sg_size := 15 |} - 1 ->
     exists x row s',
       getitem {| sg_m := 3; sg_n := 4; sg_size := 15 |} 2 []
       = (Ok x, {| sg_m := 3; sg_n := 4; sg_size := 15 |}, s') /\
       out !! Z.to_nat 2 = Some row /\
       s' !! x = Some row /\
       s' = [] ++ [row]).
Proof.
  apply (getitem_spec (fun _ _ => 0) 3 4
           {| sg_m := 3; sg_n := 4; sg_size := 15 |} 2 []);
    [lia | split; [lia | reflexivity] | reflexivity].
Defined.

(** C7 as stated fails at [SimplexGrid(1, 2^63)]: its size is 1, rank 0
    is in range, and [simplexgrid[0]] raises OverflowError instead of
    returning the vector. *)
Lemma getitem_overflow :
  SimplexGrid_init 1 (2 ^ 63)
  = Ok {| sg_m := 1; sg_n := 2 ^ 63; sg_size := 1 |} /\
  0 <= 0 <= sg_size {| sg_m := 1; sg_n := 2 ^ 63; sg_size := 1 |} - 1 /\
  getitem {| sg_m := 1; sg_n := 2 ^ 63; sg_size := 1 |} 0 []
  = (Raise OverflowError, {| sg_m := 1; sg_n := 2 ^ 63; sg_size := 1 |}, [[0]]).
Proof. split; [reflexivity|]. split; [simpl; lia | reflexivity]. Qed.

(** C8, as the code has it. [num_compositions] checks nothing and never
    fails: for m >= 1 and n >= 0 it returns the exact integer
    C(n+m-1, m-1) = (n+m-1)! / (n! (m-1)!), and for m < 1 or n < 0 it
    returns 0; constructing the facade succeeds likewise, with that
    number as its size. *)
Theorem num_compositions_total m n :
  let L := if (1 <=? m) && (0 <=? n)
           then Z.of_nat (binom (Z.to_nat (n + m - 1)) (Z.to_nat (m - 1)))
           else 0 in
  num_compositions m n = Ok L /\
  SimplexGrid_init m n = Ok {| sg_m := m; sg_n := n; sg_size := L |} /\
  (if (1 <=? m) && (0 <=? n)
   then L * Z.of_nat (fact (Z.to_nat n) * fact (Z.to_nat (m - 1)))
        = Z.of_nat (fact (Z.to_nat (n + m - 1)))
   else True).
Proof.
  intros L. unfold L.
  rewrite SimplexGrid_init_ok, num_compositions_ok.
  destruct ((1 <=? m) && (0 <=? n)) eqn:Hc.
  - apply andb_true_iff in Hc as [Hm Hn].
    rewrite ncomp_binom by lia. split; [done|]. split; [done|].
    pose proof (binom_fact (Z.to_nat (n + m - 1)) (Z.to_nat (m - 1)) ltac:(lia)) as Hf.
    replace (Z.to_nat (n + m - 1) - Z.to_nat (m - 1))%nat with (Z.to_nat n) in Hf by lia.
    rewrite <- Hf. rewrite <- Nat2Z.inj_mul. f_equal. lia.
  - apply andb_false_iff in Hc.
    rewrite ncomp_invalid by lia. done.
Qed.

(** C8 as stated fails: with m = 0 the counter returns 0 instead of
    failing, and so does the construction of the facade with m = 0 or
    with n = -1. *)
Lemma num_compositions_never_fails :
  (0 < 1 \/ 3 < 0) /\
  num_compositions 0 3 = Ok 0 /\
  ~ (exists e, num_compositions 0 3 = Raise e) /\
  SimplexGrid_init 0 3 = Ok {| sg_m := 0; sg_n := 3; sg_size := 0 |} /\
  SimplexGrid_init 3 (-1) = Ok {| sg_m := 3; sg_n := -1; sg_size := 0 |}.
Proof.
  split; [lia|]. split; [reflexivity|]. split; [|split; reflexivity].
  intros [e He]. discriminate He.
Qed.

(** C5 fails on the code at [SimplexGrid(2, 0)]: there is one point,
    L = 1 and the batch result is the single row (0, 0), but the second
    and the third call of [next()] yield again, with (1, -1) and (2, -2),
    where the generator should have stopped.  [simplex_grid] gets n = 0
    right through its loop bound L; [generate] has no such bound and its
    test [h == 0] is not met while x[m-1] is below zero. *)
Theorem generate_2_0_overruns :
  num_compositions 2 0 = Ok 1 /\
  simplex_grid (fun _ _ => 0) 2 0 = Ok [[0; 0]] /\
  exists g s',
    gen_collect 3 (generate {| sg_m := 2; sg_n := 0; sg_size := 1 |}) []
    = ([(0%nat, [0; 0]); (0%nat, [1; -1]); (0%nat, [2; -2])], Ok tt, g, s').
Proof.
  split; [reflexivity|]. split; [reflexivity|].
  eexists _, _. reflexivity.
Qed.

(** C9, as the code has it. For every m >= 1, 0 <= n < 2^63 and steps
    i <= j <= L-1, the generator hands out one and the same working
    array at every step: steps i and j yield the same reference, what
    is yielded at step i equals row i of [simplex_grid m n] at that
    moment, and once the generator has advanced to step j that same
    array holds row j. *)
Theorem generate_yields_shared_vector uninit m n self (s : store) (i j : nat) :
  1 <= m -> 0 <= n < 2 ^ 63 -> SimplexGrid_init m n = Ok self ->
  (i <= j)%nat -> Z.of_nat j <= sg_size self - 1 ->
  exists out ri rj ys g s' x,
    simplex_grid uninit m n = Ok out /\
    out !! i = Some ri /\
    out !! j = Some rj /\
    gen_collect (S j) (generate self) s = (ys, Ok tt, g, s') /\
    ys !! i = Some (x, ri) /\
    ys !! j = Some (x, rj) /\
    s' !! x = Some rj.
Proof.
  intros Hm Hn Hself Hij Hj. rewrite SimplexGrid_init_ok in Hself.
  injection Hself as <-. cbn [sg_size] in Hj.
  exists (map (point_at m n) (seq 0 (Z.to_nat (ncomp m n)))),
         (point_at m n i), (point_at m n j).
  eexists _, _, _, (length s).
  split; [by apply simplex_grid_points|].
  split; [apply grid_rows_lookup; split; [lia | done]|].
  split; [apply grid_rows_lookup; split; [lia | done]|].
  split; [by apply (gen_collect_prefix {| sg_m := m; sg_n := n; sg_size := ncomp m n |} s)|].
  cbn [sg_m sg_n]. rewrite !list_lookup_fmap.
  rewrite (proj2 (lookup_seq 0 (S j) i i)) by (split; [done | lia]).
  rewrite (proj2 (lookup_seq 0 (S j) j j)) by (split; [done | lia]).
  split; [done|]. split; [done|]. apply lookup_end.
Qed.

Lemma generate_yields_shared_vector_witness :
  exists out ri rj ys g s' x,
    simplex_grid (fun _ _ => 0) 3 4 = Ok out /\
    out !! 2%nat = Some ri /\
    out !! 5%nat = Some rj /\
    gen_collect 6 (generate {| sg_m := 3; sg_n := 4; sg_size := 15 |}) []
    = (ys, Ok tt, g, s') /\
    ys !! 2%nat = Some (x, ri) /\
    ys !! 5%nat = Some (x, rj) /\
    s' !! x = Some rj.
Proof.
  apply (generate_yields_shared_vector (fun _ _ => 0) 3 4
           {| sg_m := 3; sg_n := 4; sg_size := 15 |} [] 2 5);
    [lia | split; [lia | reflexivity] | reflexivity | lia | simpl; lia].
Defined.

(** C9 as stated fails at [SimplexGrid(2, 1)]: the vector obtained at
    step 0 is (0, 1), row 0 of the batch result, when it is yielded;
    after one more call of [next()] the same array holds (1, 0).  And at
    [SimplexGrid(1, 2^63)] the first call of [next()] raises
    OverflowError, so no vector is obtained at step 0. *)
Lemma generate_vector_overwritten :
  (exists out row0 ys g s' x,
      SimplexGrid_init 2 1 = Ok {| sg_m := 2; sg_n := 1; sg_size := 2 |} /\
      simplex_grid (fun _ _ => 0) 2 1 = Ok out /\
      out !! 0%nat = Some row0 /\
      gen_collect 2 (generate {| sg_m := 2; sg_n := 1; sg_size := 2 |}) []
      = (ys, Ok tt, g, s') /\
      ys !! 0%nat = Some (x, row0) /\
      s' !! x = Some [1; 0] /\
      s' !! x <> Some row0) /\
  (exists g s',
      gen_next (generate {| sg_m := 1; sg_n := 2 ^ 63; sg_size := 1 |}) []
      = (Raise OverflowError, g, s')).
Proof.
  split.
  - eexists _, _, _, _, _, _.
    split; [reflexivity|]. split; [reflexivity|]. split; [reflexivity|].
    split; [reflexivity|]. split; [reflexivity|]. split; [reflexivity|].
    discriminate.
  - eexists _, _. reflexivity.
Qed.

(** * Further properties of the code *)

(** ** The rank as an order isomorphism *)

Lemma rank_lower x : forall n,
  x <> [] -> Forall (fun v => 0 <= v) x -> zsum x = n -> 0 <= rank x n.
Proof.
  induction x as [|a x IH]; intros n Hne Hx Hs; [done|].
  apply Forall_cons in Hx as [Ha Hx'].
  destruct x as [|b x]; [simpl; lia|].
  pose proof (zsum_nonneg _ Hx') as Hnn.
  rewrite rank_cons.
  change (zsum (a :: b :: x)) with (a + zsum (b :: x)) in Hs.
  replace (n - a) with (zsum (b :: x)) by lia.
  specialize (IH (zsum (b :: x)) ltac:(done) Hx' eq_refl).
  pose proof (ncomp_mono (Z.of_nat (length (a :: b :: x))) (zsum (b :: x)) n
                ltac:(simpl; lia) ltac:(lia)).
  lia.
Qed.

(** A lexicographically smaller composition has a smaller rank. *)
Lemma rank_lex_mono x : forall y n,
  length x = length y ->
  Forall (fun v => 0 <= v) x -> Forall (fun v => 0 <= v) y ->
  zsum x = n -> zsum y = n ->
  lex_lt x y -> rank x n < rank y n.
Proof.
  induction x as [|a x IH]; intros [|b y] n Hlen Hx Hy Hsx Hsy Hlex;
    try done.
  apply Forall_cons in Hx as [Ha Hx']. apply Forall_cons in Hy as [Hb Hy'].
  change (zsum (a :: x)) with (a + zsum x) in Hsx.
  change (zsum (b :: y)) with (b + zsum y) in Hsy.
  unfold lex_lt in Hlex. cbn [lex_ltb] in Hlex.
  apply orb_true_iff in Hlex.
  destruct x as [|c x], y as [|d y]; try done.
  - simpl in Hsx, Hsy.
    destruct Hlex as [Hlt|Heq]; [lia|].
    apply andb_true_iff in Heq as [_ Heq]. done.
  - pose proof (zsum_nonneg _ Hx') as Hnx.
    pose proof (zsum_nonneg _ Hy') as Hny.
    rewrite !rank_cons.
    replace (length (b :: d :: y)) with (length (a :: c :: x))
      by (simpl in *; lia).
    set (M := Z.of_nat (length (a :: c :: x))).
    assert (HM : 2 <= M) by (unfold M; simpl; lia).
    assert (HM1 : Z.of_nat (length (c :: x)) = M - 1) by (unfold M; simpl; lia).
    destruct Hlex as [Hlt|Heq].
    + apply Z.ltb_lt in Hlt.
      pose proof (rank_upper (c :: x) (n - a) ltac:(done) Hx' ltac:(lia)) as Hup.
      pose proof (rank_lower (d :: y) (n - b) ltac:(done) Hy' ltac:(lia)) as Hlo.
      rewrite HM1 in Hup.
      pose proof (ncomp_pascal M (n - a) HM ltac:(lia)) as Hp.
      pose proof (ncomp_mono M (n - b) (n - a - 1) ltac:(lia) ltac:(lia)) as Hmono.
      lia.
    + apply andb_true_iff in Heq as [Heq Hlex]. apply Z.eqb_eq in Heq. subst b.
      specialize (IH (d :: y) (n - a) ltac:(simpl in *; lia) Hx' Hy'
                     ltac:(lia) ltac:(lia) Hlex).
      lia.
Qed.

Lemma lex_lt_total x : forall y,
  length x = length y -> x <> y -> lex_lt x y \/ lex_lt y x.
Proof.
  unfold lex_lt.
  induction x as [|a x IH]; intros [|b y] Hlen Hne; try done.
  cbn [lex_ltb]. rewrite !orb_true_iff, !andb_true_iff, !Z.ltb_lt, !Z.eqb_eq.
  destruct (Z.lt_trichotomy a b) as [H|[H|H]]; [by left; left | | by right; left].
  subst b.
  destruct (IH y ltac:(simpl in Hlen; lia) ltac:(congruence)) as [H|H].
  - left. by right.
  - right. by right.
Qed.

Lemma rank_inj m n x y :
  is_composition m n x -> is_composition m n y ->
  rank x n = rank y n -> x = y.
Proof.
  intros (Hlx & Hx & Hsx) (Hly & Hy & Hsy) Hr.
  destruct (decide (x = y)) as [|Hne]; [done|]. exfalso.
  destruct (lex_lt_total x y ltac:(lia) Hne) as [H|H].
  - pose proof (rank_lex_mono x y n ltac:(lia) Hx Hy Hsx Hsy H). lia.
  - pose proof (rank_lex_mono y x n ltac:(lia) Hy Hx Hsy Hsx H). lia.
Qed.

Lemma composition_nonempty m n x : 1 <= m -> is_composition m n x -> x <> [].
Proof. intros Hm (Hl & _) ->. simpl in Hl. lia. Qed.

Lemma rank_range m n x :
  1 <= m -> is_composition m n x -> 0 <= rank x n <= ncomp m n - 1.
Proof.
  intros Hm Hc. pose proof (composition_nonempty m n x Hm Hc) as Hne.
  destruct Hc as (Hl & Hx & Hs). split.
  - by apply rank_lower.
  - rewrite <- Hl. by apply rank_upper.
Qed.

Lemma composition_sum_nonneg m n x : is_composition m n x -> 0 <= n.
Proof. intros (_ & Hx & <-). by apply zsum_nonneg. Qed.

(** The point at the rank of a composition is that composition. *)
Lemma point_at_rank m n x :
  1 <= m -> is_composition m n x ->
  point_at m n (Z.to_nat (rank x n)) = x.
Proof.
  intros Hm Hc.
  pose proof (rank_range m n x Hm Hc) as Hr.
  pose proof (composition_sum_nonneg m n x Hc) as Hn.
  destruct (state_at_spec m n (Z.to_nat (rank x n)) Hm Hn ltac:(lia))
    as (Hc' & Hr' & _).
  apply (rank_inj m n); [done | done | lia].
Qed.

(** X1. [simplex_index] is strictly increasing, and only so, along the
    lexicographic order of the compositions of n into m parts, when
    m * [num_compositions m n] < 2^63. *)
Theorem simplex_index_order_iso x y m n :
  1 <= m -> is_composition m n x -> is_composition m n y ->
  (exists L, num_compositions m n = Ok L /\ m * L < 2 ^ 63) ->
  exists i j,
    simplex_index x m n = Ok i /\
    simplex_index y m n = Ok j /\
    (lex_lt x y <-> i < j).
Proof.
  intros Hm Hx Hy (L & HL & Hcells). rewrite num_compositions_ok in HL.
  injection HL as <-. exists (rank x n), (rank y n).
  split; [by apply simplex_index_rank|]. split; [by apply simplex_index_rank|].
  pose proof Hx as (Hlx & Hfx & Hsx). pose proof Hy as (Hly & Hfy & Hsy).
  split.
  - intros Hlex. apply rank_lex_mono; (done || lia).
  - intros Hlt.
    destruct (decide (x = y)) as [->|Hne]; [lia|].
    destruct (lex_lt_total x y ltac:(lia) Hne) as [H|H]; [done|].
    pose proof (rank_lex_mono y x n ltac:(lia) Hfy Hfx Hsy Hsx H). lia.
Qed.

Lemma simplex_index_order_iso_witness :
  exists i j,
    simplex_index [0; 4; 0] 3 4 = Ok i /\
    simplex_index [1; 1; 2] 3 4 = Ok j /\
    (lex_lt [0; 4; 0] [1; 1; 2] <-> i < j).
Proof.
  apply (simplex_index_order_iso [0; 4; 0] [1; 1; 2] 3 4); [lia | | |].
  - split; [reflexivity|]. split; [|reflexivity]. repeat constructor; lia.
  - split; [reflexivity|]. split; [|reflexivity]. repeat constructor; lia.
  - exists 15. split; reflexivity.
Defined.

(** X2. The index of a composition lies in [0, L-1], when m * L < 2^63
    for L = [num_compositions m n]. *)
Theorem simplex_index_in_range x m n :
  1 <= m -> is_composition m n x ->
  (exists L, num_compositions m n = Ok L /\ m * L < 2 ^ 63) ->
  exists idx L,
    simplex_index x m n = Ok idx /\
    num_compositions m n = Ok L /\
    0 <= idx <= L - 1.
Proof.
  intros Hm Hc (L & HL & Hcells). rewrite num_compositions_ok in HL.
  injection HL as <-. exists (rank x n), (ncomp m n).
  split; [by apply simplex_index_rank|]. split; [done|].
  by apply rank_range.
Qed.

Lemma simplex_index_in_range_witness :
  exists idx L,
    simplex_index [1; 1; 2] 3 4 = Ok idx /\
    num_compositions 3 4 = Ok L /\
    0 <= idx <= L - 1.
Proof.
  apply (simplex_index_in_range [1; 1; 2] 3 4); [lia | |].
  - split; [reflexivity|]. split; [|reflexivity]. repeat constructor; lia.
  - exists 15. split; reflexivity.
Defined.

(** X3. Point -> rank -> point: the row of [simplex_grid m n] at the index
    of a composition is that composition, when n < 2^63 and
    m * [num_compositions m n] < 2^63. *)
Theorem simplex_grid_at_simplex_index uninit x m n :
  1 <= m -> n < 2 ^ 63 -> is_composition m n x ->
  (exists L, num_compositions m n = Ok L /\ m * L < 2 ^ 63) ->
  exists out idx,
    simplex_grid uninit m n = Ok out /\
    simplex_index x m n = Ok idx /\
    out !! Z.to_nat idx = Some x.
Proof.
  intros Hm Hfit Hc (L & HL & Hcells). rewrite num_compositions_ok in HL.
  injection HL as <-.
  pose proof (rank_range m n x Hm Hc) as Hr.
  pose proof (composition_sum_nonneg m n x Hc) as Hn.
  eexists _, (rank x n).
  split; [by apply simplex_grid_points|]. split; [by apply simplex_index_rank|].
  apply grid_rows_lookup. split; [lia|].
  symmetry. by apply point_at_rank.
Qed.

Lemma simplex_grid_at_simplex_index_witness :
  exists out idx,
    simplex_grid (fun _ _ => 0) 3 4 = Ok out /\
    simplex_index [1; 1; 2] 3 4 = Ok idx /\
    out !! Z.to_nat idx = Some [1; 1; 2].
Proof.
  apply (simplex_grid_at_simplex_index (fun _ _ => 0) [1; 1; 2] 3 4);
    [lia | reflexivity | |].
  - split; [reflexivity|]. split; [|reflexivity]. repeat constructor; lia.
  - exists 15. split; reflexivity.
Defined.

(** X4. For 0 <= n < 2^63 the rows of [simplex_grid m n] are the
    compositions of n into m parts, all of them and nothing else. *)
Theorem simplex_grid_complete uninit m n :
  1 <= m -> 0 <= n < 2 ^ 63 ->
  exists out,
    simplex_grid uninit m n = Ok out /\
    forall x, x ∈ out <-> is_composition m n x.
Proof.
  intros Hm Hn. eexists. split; [by apply simplex_grid_points|].
  intros x. rewrite list_elem_of_lookup. split.
  - intros [i Hi]. apply grid_rows_lookup in Hi as [Hi ->].
    apply state_at_spec; lia.
  - intros Hc. exists (Z.to_nat (rank x n)).
    pose proof (rank_range m n x Hm Hc) as Hr.
    apply grid_rows_lookup. split; [lia|].
    symmetry. by apply point_at_rank.
Qed.

Lemma simplex_grid_complete_witness :
  exists out,
    simplex_grid (fun _ _ => 0) 3 4 = Ok out /\
    forall x, x ∈ out <-> is_composition 3 4 x.
Proof.
  apply (simplex_grid_complete (fun _ _ => 0) 3 4);
    [lia | split; [lia | reflexivity]].
Defined.

(** ** Edge cases and invalid arguments of the batch enumerator *)

(** X5. With one part the table is the single row (n) when n fits 64
    bits, and the call raises OverflowError when it does not; with sum 0
    the table is the single row of m zeros. *)
Theorem simplex_grid_single_point uninit m n :
  1 <= m -> 0 <= n ->
  simplex_grid uninit 1 n
  = (if n <? 2 ^ 63 then Ok [[n]] else Raise OverflowError) /\
  simplex_grid uninit m 0 = Ok [replicate (Z.to_nat m) 0].
Proof.
  intros Hm Hn. split.
  - destruct (Z.ltb_spec n (2 ^ 63)) as [Hfit|Hbig].
    + rewrite simplex_grid_points, ncomp_one by lia. done.
    + by apply simplex_grid_overflow.
  - rewrite simplex_grid_points, ncomp_zero by (done || lia).
    change (Z.to_nat 1) with 1%nat. cbn [seq map].
    unfold point_at, state_at. simpl Nat.iter. rewrite first_state_eq by done.
    cbn [fst]. rewrite <- replicate_S_end. do 3 f_equal. lia.
Qed.

Lemma simplex_grid_single_point_witness :
  simplex_grid (fun _ _ => 7) 1 5
  = (if 5 <? 2 ^ 63 then Ok [[5]] else Raise OverflowError) /\
  simplex_grid (fun _ _ => 7) 3 0 = Ok [replicate (Z.to_nat 3) 0].
Proof. apply (simplex_grid_single_point (fun _ _ => 7) 3 5); lia. Defined.



(** X7. What a fresh table held before does not show in the result: every
    cell of it is overwritten. *)
Theorem simplex_grid_ignores_uninitialised u1 u2 m n :
  1 <= m -> 0 <= n -> simplex_grid u1 m n = simplex_grid u2 m n.
Proof.
  intros Hm Hn. destruct (Z.lt_ge_cases n (2 ^ 63)) as [Hfit|Hbig].
  - by rewrite !simplex_grid_points.
  - by rewrite !simplex_grid_overflow.
Qed.

Lemma simplex_grid_ignores_uninitialised_witness :
  simplex_grid (fun _ _ => 0) 3 4 = simplex_grid (fun i j => Z.of_nat (i + j)) 3 4.
Proof.
  apply (simplex_grid_ignores_uninitialised
           (fun _ _ => 0) (fun i j => Z.of_nat (i + j)) 3 4); lia.
Defined.

(** X8. For 0 <= n < 2^63 every entry of every row lies in [0, n]: on
    such n the 64-bit working vector never wraps. *)
Theorem simplex_grid_entries_bounded uninit m n :
  1 <= m -> 0 <= n < 2 ^ 63 ->
  exists out,
    simplex_grid uninit m n = Ok out /\
    Forall (Forall (fun v => 0 <= v <= n)) out.
Proof.
  intros Hm Hn. eexists. split; [by apply simplex_grid_points|].
  apply Forall_forall. intros row Hin.
  apply list_elem_of_lookup in Hin as [i Hi].
  apply grid_rows_lookup in Hi as [Hi ->].
  pose proof (ncomp_pos m n Hm ltac:(lia)).
  apply grid_entries_bounded; lia.
Qed.

Lemma simplex_grid_entries_bounded_witness :
  exists out,
    simplex_grid (fun _ _ => 0) 3 4 = Ok out /\
    Forall (Forall (fun v => 0 <= v <= 4)) out.
Proof.
  apply (simplex_grid_entries_bounded (fun _ _ => 0) 3 4);
    [lia | split; [lia | reflexivity]].
Defined.

(** ** The counter *)

(** X9. The counting recurrence: a composition either has a positive last
    part, or it has a zero there and is a composition into m-1 parts. *)
Theorem num_compositions_pascal m n :
  2 <= m -> 1 <= n ->
  exists a b c,
    num_compositions m n = Ok a /\
    num_compositions m (n - 1) = Ok b /\
    num_compositions (m - 1) n = Ok c /\
    a = b + c.
Proof.
  intros Hm Hn. exists (ncomp m n), (ncomp m (n - 1)), (ncomp (m - 1) n).
  split; [done|]. split; [done|]. split; [done|]. by apply ncomp_pascal.
Qed.

Lemma num_compositions_pascal_witness :
  exists a b c,
    num_compositions 3 4 = Ok a /\
    num_compositions 3 (4 - 1) = Ok b /\
    num_compositions (3 - 1) 4 = Ok c /\
    a = b + c.
Proof. apply (num_compositions_pascal 3 4); lia. Defined.

(** X10. On valid arguments the count is at least 1, it is 1 with one part
    and with sum 0, and it does not decrease when n grows. *)
Theorem num_compositions_bounds m n n' :
  1 <= m -> 0 <= n <= n' ->
  exists L L',
    num_compositions m n = Ok L /\
    num_compositions m n' = Ok L' /\
    1 <= L <= L' /\
    num_compositions 1 n = Ok 1 /\
    num_compositions m 0 = Ok 1.
Proof.
  intros Hm Hn. exists (ncomp m n), (ncomp m n').
  split; [done|]. split; [done|]. split.
  - split; [apply ncomp_pos; lia | apply ncomp_mono; lia].
  - by rewrite !num_compositions_ok, ncomp_one, ncomp_zero by lia.
Qed.

Lemma num_compositions_bounds_witness :
  exists L L',
    num_compositions 3 4 = Ok L /\
    num_compositions 3 6 = Ok L' /\
    1 <= L <= L' /\
    num_compositions 1 4 = Ok 1 /\
    num_compositions 3 0 = Ok 1.
Proof. apply (num_compositions_bounds 3 4 6); lia. Defined.

(** ** The rankers on vectors that are too short *)

(** X11. [simplex_index_rec] reads [x[0]] once per level down to m = 1, so a
    vector with fewer than m - 1 entries ends in IndexError. *)
Theorem simplex_index_rec_too_short x : forall m n,
  Z.of_nat (length x) < m - 1 ->
  simplex_index_rec x m n = Raise IndexError.
Proof.
  induction x as [|a x IH]; intros m n Hlen.
  - simpl in *. by replace (m =? 1) with false by lia.
  - rewrite simplex_index_rec_cons.
    replace (m =? 1) with false by (simpl in Hlen; lia).
    rewrite IH by (simpl in Hlen; lia). done.
Qed.

Lemma simplex_index_rec_too_short_witness :
  simplex_index_rec [1] 3 4 = Raise IndexError.
Proof. apply (simplex_index_rec_too_short [1] 3 4). simpl. lia. Defined.

(** X12. [simplex_index] with m >= 2 on a vector of at most one entry: the
    suffix sums are empty and the first [decumsum[0]] raises. *)
Theorem simplex_index_too_short x m n :
  2 <= m -> (length x <= 1)%nat -> simplex_index x m n = Raise IndexError.
Proof.
  intros Hm Hlen. unfold simplex_index.
  replace (m =? 1) with false by lia.
  rewrite num_compositions_ok. cbn [bind].
  assert (tail x = []) as -> by (destruct x as [|a [|b x]]; simpl in *; done || lia).
  rewrite range_cons by lia. done.
Qed.

Lemma simplex_index_too_short_witness :
  simplex_index [] 3 4 = Raise IndexError.
Proof. apply (simplex_index_too_short [] 3 4); simpl; lia. Defined.

(** ** The facade *)

(** X13. Rank -> point -> rank on the facade: [get_index] of the vector that
    [simplexgrid[idx]] returns is idx, when n < 2^63 and m * size < 2^63. *)
Theorem get_index_of_getitem m n self idx (s : store) :
  1 <= m -> 0 <= n < 2 ^ 63 -> SimplexGrid_init m n = Ok self ->
  m * sg_size self < 2 ^ 63 ->
  0 <= idx <= sg_size self - 1 ->
  exists x v s',
    getitem self idx s = (Ok x, self, s') /\
    s' !! x = Some v /\
    get_index self v = Ok idx.
Proof.
  intros Hm Hn Hself Hcells Hidx. rewrite SimplexGrid_init_ok in Hself.
  injection Hself as <-. cbn [sg_size] in Hidx, Hcells.
  eexists _, _, _. split; [by apply getitem_in_range|].
  split; [apply lookup_end|].
  unfold get_index. cbn [sg_m sg_n].
  destruct (state_at_spec m n (Z.to_nat idx) Hm ltac:(lia) ltac:(lia))
    as (Hc & Hr & _).
  rewrite simplex_index_rank, Hr by done. f_equal. lia.
Qed.

Lemma get_index_of_getitem_witness :
  exists x v s',
    getitem {| sg_m := 3; sg_n := 4; sg_size := 15 |} 4 []
    = (Ok x, {| sg_m := 3; sg_n := 4; sg_size := 15 |}, s') /\
    s' !! x = Some v /\
    get_index {| sg_m := 3; sg_n := 4; sg_size := 15 |} v = Ok 4.
Proof.
  apply (get_index_of_getitem 3 4 {| sg_m := 3; sg_n := 4; sg_size := 15 |} 4 []);
    [lia | split; [lia | reflexivity] | reflexivity | reflexivity | simpl; lia].
Defined.

(** X14. Point -> rank -> point on the facade: for a composition x,
    [simplexgrid[simplexgrid.get_index(x)]] is a vector equal to x, when
    n < 2^63 and m * size < 2^63. *)
Theorem getitem_of_get_index m n self x (s : store) :
  1 <= m -> n < 2 ^ 63 -> SimplexGrid_init m n = Ok self ->
  m * sg_size self < 2 ^ 63 ->
  is_composition m n x ->
  exists idx loc s',
    get_index self x = Ok idx /\
    getitem self idx s = (Ok loc, self, s') /\
    s' !! loc = Some x.
Proof.
  intros Hm Hfit Hself Hcells Hc. rewrite SimplexGrid_init_ok in Hself.
  injection Hself as <-. cbn [sg_size] in Hcells.
  pose proof (rank_range m n x Hm Hc) as Hr.
  pose proof (composition_sum_nonneg m n x Hc) as Hn.
  exists (rank x n). eexists _, _.
  split; [by apply simplex_index_rank|].
  split; [by apply getitem_in_range|].
  rewrite point_at_rank by done. apply lookup_end.
Qed.

Lemma getitem_of_get_index_witness :
  exists idx loc s',
    get_index {| sg_m := 3; sg_n := 4; sg_size := 15 |} [0; 4; 0] = Ok idx /\
    getitem {| sg_m := 3; sg_n := 4; sg_size := 15 |} idx []
    = (Ok loc, {| sg_m := 3; sg_n := 4; sg_size := 15 |}, s') /\
    s' !! loc = Some [0; 4; 0].
Proof.
  apply (getitem_of_get_index 3 4 {| sg_m := 3; sg_n := 4; sg_size := 15 |}
           [0; 4; 0] []); [lia | reflexivity | reflexivity | reflexivity |].
  split; [reflexivity|]. split; [|reflexivity]. repeat constructor; lia.
Defined.

(** X15. For 0 <= n < 2^63, each indexed access runs a generator of its
    own: two accesses return two different arrays, and the vector
    obtained first is still what it was after the second access. *)
Theorem getitem_twice_independent uninit m n self i j (s : store) :
  1 <= m -> 0 <= n < 2 ^ 63 -> SimplexGrid_init m n = Ok self ->
  0 <= i <= sg_size self - 1 -> 0 <= j <= sg_size self - 1 ->
  exists out ri rj x1 s1 x2 s2,
    simplex_grid uninit m n = Ok out /\
    out !! Z.to_nat i = Some ri /\
    out !! Z.to_nat j = Some rj /\
    getitem self i s = (Ok x1, self, s1) /\
    getitem self j s1 = (Ok x2, self, s2) /\
    x1 <> x2 /\
    s2 !! x1 = Some ri /\
    s2 !! x2 = Some rj.
Proof.
  intros Hm Hn Hself Hi Hj. rewrite SimplexGrid_init_ok in Hself.
  injection Hself as <-. cbn [sg_size] in Hi, Hj.
  eexists _, (point_at m n (Z.to_nat i)), (point_at m n (Z.to_nat j)).
  eexists _, _, _, _.
  split; [by apply simplex_grid_points|].
  split; [apply grid_rows_lookup; split; [lia | done]|].
  split; [apply grid_rows_lookup; split; [lia | done]|].
  split; [by apply getitem_in_range|].
  split; [by apply getitem_in_range|].
  rewrite length_app. cbn [length]. split; [lia|]. split.
  - rewrite lookup_app_l by (rewrite length_app; simpl; lia).
    apply lookup_end.
  - replace (length s + 1)%nat with (length (s ++ [point_at m n (Z.to_nat i)]))
      by (rewrite length_app; simpl; lia).
    apply lookup_end.
Qed.

Lemma getitem_twice_independent_witness :
  exists out ri rj x1 s1 x2 s2,
    simplex_grid (fun _ _ => 0) 3 4 = Ok out /\
    out !! Z.to_nat 2 = Some ri /\
    out !! Z.to_nat 14 = Some rj /\
    getitem {| sg_m := 3; sg_n := 4; sg_size := 15 |} 2 []
    = (Ok x1, {| sg_m := 3; sg_n := 4; sg_size := 15 |}, s1) /\
    getitem {| sg_m := 3; sg_n := 4; sg_size := 15 |} 14 s1
    = (Ok x2, {| sg_m := 3; sg_n := 4; sg_size := 15 |}, s2) /\
    x1 <> x2 /\
    s2 !! x1 = Some ri /\
    s2 !! x2 = Some rj.
Proof.
  apply (getitem_twice_independent (fun _ _ => 0) 3 4
           {| sg_m := 3; sg_n := 4; sg_size := 15 |} 2 14 []);
    [lia | split; [lia | reflexivity] | reflexivity | simpl; lia | simpl; lia].
Defined.

(** X16. A facade built with m < 1 or n < 0 has size 0, and every indexed
    access on it raises IndexError, for any index. *)
Theorem getitem_on_invalid_facade m n self idx (s : store) :
  m < 1 \/ n < 0 -> SimplexGrid_init m n = Ok self ->
  sg_size self = 0 /\
  getitem self idx s = (Raise IndexError, self, s).
Proof.
  intros Hinv Hself. rewrite SimplexGrid_init_ok in Hself.
  injection Hself as <-. cbn [sg_size].
  rewrite ncomp_invalid by done. split; [done|].
  apply getitem_out_of_range. cbn [sg_size]. lia.
Qed.

Lemma getitem_on_invalid_facade_witness :
  sg_size {| sg_m := 0; sg_n := 3; sg_size := 0 |} = 0 /\
  getitem {| sg_m := 0; sg_n := 3; sg_size := 0 |} 0 []
  = (Raise IndexError, {| sg_m := 0; sg_n := 3; sg_size := 0 |}, []).
Proof.
  apply (getitem_on_invalid_facade 0 3 {| sg_m := 0; sg_n := 3; sg_size := 0 |} 0 []);
    [lia | reflexivity].
Defined.

(** ** The generator *)

(** X17. Away from n = 0 with m >= 2, and for n < 2^63, the generator is
    right: it yields the rows of [simplex_grid m n], one per call, and
    the call after the last row raises StopIteration. *)
Lemma generate_matches_grid uninit m n (s : store) :
  1 <= m -> 0 <= n < 2 ^ 63 -> 1 <= n \/ m = 1 ->
  exists out g s',
    simplex_grid uninit m n = Ok out /\
    gen_collect (S (length out))
                (generate {| sg_m := m; sg_n := n; sg_size := ncomp m n |}) s
    = (map (fun row => (length s, row)) out, Raise StopIteration, g, s') /\
    gen_pc_of g = GenDone.
Proof.
  intros Hm Hn Hcase. eexists _, _, _.
  split; [by apply simplex_grid_points|].
  rewrite length_map, length_seq.
  pose proof (gen_collect_all {| sg_m := m; sg_n := n; sg_size := ncomp m n |}
                s Hm Hn Hcase) as H.
  cbn [sg_m sg_n] in H. rewrite H. split.
  - by rewrite <- list_fmap_compose.
  - done.
Qed.

Lemma generate_matches_grid_witness :
  exists out g s',
    simplex_grid (fun _ _ => 0) 3 4 = Ok out /\
    gen_collect (S (length out))
                (generate {| sg_m := 3; sg_n := 4; sg_size := ncomp 3 4 |}) []
    = (map (fun row => (length ([] : store), row)) out, Raise StopIteration, g, s') /\
    gen_pc_of g = GenDone.
Proof.
  apply (generate_matches_grid (fun _ _ => 0) 3 4 []);
    [lia | split; [lia | reflexivity] | left; lia].
Defined.

Lemma gen_zero_sum_from self m (s : store) :
  2 <= m ->
  forall d i : nat,
    Z.of_nat (i + d) < 2 ^ 63 ->
    gen_collect d
      {| gen_self := self; gen_pc_of := GenSuspended m (length s) m |}
      (s ++ [replicate (Z.to_nat (m - 2)) 0 ++ [Z.of_nat i; - Z.of_nat i]])
    = (map (fun j => (length s,
                      replicate (Z.to_nat (m - 2)) 0 ++ [Z.of_nat j; - Z.of_nat j]))
           (seq (S i) d),
       Ok tt,
       {| gen_self := self; gen_pc_of := GenSuspended m (length s) m |},
       s ++ [replicate (Z.to_nat (m - 2)) 0
             ++ [Z.of_nat (i + d); - Z.of_nat (i + d)]]).
Proof.
  intros Hm. induction d as [|d IH]; intros i Hid.
  - by rewrite Nat.add_0_r.
  - rewrite gen_collect_succ.
    pose proof (next_state_scan (replicate (Z.to_nat (m - 2)) 0)
                  (Z.of_nat i) (- Z.of_nat i) 0) as Hs.
    cbn zeta in Hs. rewrite length_replicate in Hs.
    replace (Z.of_nat (length (replicate (Z.to_nat (m - 2)) 0
                               ++ Z.of_nat i :: - Z.of_nat i :: replicate 0 0)))
      with m in Hs
      by (rewrite length_app, length_replicate; simpl; lia).
    replace (Z.of_nat (Z.to_nat (m - 2)) + 2) with m in Hs by lia.
    change (Z.of_nat i :: - Z.of_nat i :: replicate 0 0)
      with [Z.of_nat i; - Z.of_nat i] in Hs.
    rewrite gen_next_suspended; cycle 1.
    { rewrite length_app, length_replicate. simpl. lia. }
    { lia. }
    { rewrite Hs. cbn [fst]. apply Forall_app. split.
      - apply Forall_replicate. done.
      - repeat constructor; apply fits64_spec; lia. }
    rewrite Hs. cbn [fst snd].
    destruct (Z.eqb_spec (- Z.of_nat i) 1) as [Hone|_]; [lia|].
    change (replicate 0 0 ++ [- Z.of_nat i - 1]) with [- Z.of_nat i - 1].
    replace (Z.of_nat i + 1) with (Z.of_nat (S i)) by lia.
    replace (- Z.of_nat i - 1) with (- Z.of_nat (S i)) by lia.
    rewrite IH, lookup_end by lia.
    replace (S i + d)%nat with (i + S d)%nat by lia. done.
Qed.

(** X18. With n = 0 and m >= 2 the generator does not stop at its one point:
    call number j (from 0) yields (0, ..., 0, j, -j), for as many calls
    as are made; up to 2^63 calls all these entries fit the 64-bit
    array. *)
Theorem generate_zero_sum_yields m self (k : nat) (s : store) :
  2 <= m -> SimplexGrid_init m 0 = Ok self -> Z.of_nat k <= 2 ^ 63 ->
  exists ys g s',
    sg_size self = 1 /\
    gen_collect k (generate self) s = (ys, Ok tt, g, s') /\
    ys = map (fun j => (length s,
                        replicate (Z.to_nat (m - 2)) 0
                        ++ [Z.of_nat j; - Z.of_nat j]))
             (seq 0 k) /\
    Forall (fun p => Forall (fun v => - 2 ^ 63 <= v < 2 ^ 63) (snd p)) ys.
Proof.
  intros Hm Hself Hk. rewrite SimplexGrid_init_ok in Hself.
  injection Hself as <-. cbn [sg_size]. rewrite ncomp_zero by lia.
  assert (Hfit : Forall (fun p : nat * list Z =>
                           Forall (fun v => - 2 ^ 63 <= v < 2 ^ 63) (snd p))
                   (map (fun j => (length s,
                                   replicate (Z.to_nat (m - 2)) 0
                                   ++ [Z.of_nat j; - Z.of_nat j]))
                        (seq 0 k))).
  { apply Forall_forall. intros p Hin.
    apply list_elem_of_fmap in Hin as (j & -> & Hj).
    apply elem_of_seq in Hj. cbn [snd].
    apply Forall_app. split; [apply Forall_replicate; lia|].
    repeat constructor; lia. }
  destruct k as [|k]; [by eexists _, _, _|].
  eexists _, _, _. split; [done|]. split; [|split; [reflexivity | exact Hfit]].
  rewrite gen_collect_succ, gen_next_new by (done || simpl; lia). cbn [sg_m sg_n].
  unfold point_at, state_at. simpl Nat.iter. rewrite first_state_eq by lia.
  cbn [fst].
  replace (replicate (Z.to_nat (m - 1)) 0 ++ [0])
    with (replicate (Z.to_nat (m - 2)) 0 ++ [Z.of_nat 0; - Z.of_nat 0])
    by (replace (Z.to_nat (m - 1)) with (S (Z.to_nat (m - 2))) by lia;
        rewrite replicate_S_end, <- app_assoc; done).
  rewrite gen_zero_sum_from, lookup_end by (done || lia).
  reflexivity.
Qed.

Lemma generate_zero_sum_yields_witness :
  exists ys g s',
    sg_size {| sg_m := 3; sg_n := 0; sg_size := 1 |} = 1 /\
    gen_collect 4 (generate {| sg_m := 3; sg_n := 0; sg_size := 1 |}) []
    = (ys, Ok tt, g, s') /\
    ys = map (fun j => (length ([] : store),
                        replicate (Z.to_nat (3 - 2)) 0
                        ++ [Z.of_nat j; - Z.of_nat j]))
             (seq 0 4) /\
    Forall (fun p => Forall (fun v => - 2 ^ 63 <= v < 2 ^ 63) (snd p)) ys.
Proof.
  apply (generate_zero_sum_yields 3 {| sg_m := 3; sg_n := 0; sg_size := 1 |} 4 []);
    [lia | reflexivity | simpl; lia].
Defined.

(** X19. On a facade with m < 1 the first [next()] raises, ValueError from
    [np.zeros] when m < 0 and IndexError from [x[m-1] = n] when m = 0;
    the generator is finished by it, every later call raises
    StopIteration, and no array that existed before is changed. *)
Theorem generate_invalid_parts self (s : store) :
  sg_m self < 1 ->
  exists g s',
    gen_next (generate self) s
    = (Raise (if sg_m self <? 0 then ValueError else IndexError), g, s') /\
    gen_pc_of g = GenDone /\
    (forall s'' : store, gen_next g s'' = (Raise StopIteration, g, s'')) /\
    (forall l, (l < length s)%nat -> s' !! l = s !! l).
Proof.
  intros Hm. unfold gen_next, generate, gen_start, mbind, zeros, np_zeros.
  cbn [gen_pc_of gen_self].
  destruct (Z.ltb_spec (sg_m self) 0) as [Hneg|Hpos].
  - eexists _, _. split; [done|]. split; [done|]. split; done.
  - assert (sg_m self = 0) as -> by lia.
    change (Z.to_nat 0) with 0%nat. cbn [replicate].
    unfold arr_set. rewrite lookup_end. cbn [np_set np_index length bind].
    eexists _, _. split; [done|]. split; [done|]. split; [done|].
    intros l Hl. by rewrite lookup_app_l.
Qed.

Lemma generate_invalid_parts_witness :
  exists g s',
    gen_next (generate {| sg_m := 0; sg_n := 3; sg_size := 0 |}) [[1; 2]]
    = (Raise (if sg_m {| sg_m := 0; sg_n := 3; sg_size := 0 |} <? 0
              then ValueError else IndexError), g, s') /\
    gen_pc_of g = GenDone /\
    (forall s'' : store, gen_next g s'' = (Raise StopIteration, g, s'')) /\
    (forall l, (l < length [[1; 2]])%nat -> s' !! l = [[1; 2]] !! l).
Proof.
  apply (generate_invalid_parts {| sg_m := 0; sg_n := 3; sg_size := 0 |} [[1; 2]]).
  simpl. lia.
Defined.
